(** * TweeterDataCollector: a shallow embedding of [tweet.py] and
      [data_getter.py], and the properties of its specification.

    The Python code works on untyped, JSON-shaped values.  The embedding
    keeps them untyped: a payload is a [value], a [dict] is an association
    list in insertion order, a failing subscript raises [KeyError] and an
    operation applied to a value of the wrong shape raises [TypeError].
    [Tweet.deserializer] writes into the dict it is given, so it is
    embedded as a function returning the dict after the call next to the
    outcome of the call. *)

From Stdlib Require Import String Ascii List ZArith Bool Lia PrimFloat.
Import ListNotations.
Open Scope string_scope.
Open Scope Z_scope.

(** ** Python values of JSON shape *)

#[local] Unset Elimination Schemes.
Inductive value : Type :=
| VNone
| VBool (b : bool)
| VInt (n : Z)
| VFloat (x : float)
| VStr (s : string)
| VList (items : list value)
| VDict (entries : list (string * value)).
#[local] Set Elimination Schemes.

(** A [dict] keeps its keys in insertion order ([tuple(d)] and iteration
    observe it).  The first binding of a key is the binding. *)
Definition dict := list (string * value).

Inductive exn : Type :=
| KeyError (key : string)
| TypeError
| AttributeError.

Inductive result (A : Type) : Type :=
| Ok (a : A)
| Err (e : exn).
Arguments Ok {A} a.
Arguments Err {A} e.

Definition bind {A B} (r : result A) (f : A -> result B) : result B :=
  match r with
  | Ok a => f a
  | Err e => Err e
  end.

Declare Scope result_scope.
Delimit Scope result_scope with result.
Notation "x <- r ;; k" := (bind r (fun x => k))
  (at level 61, r at next level, right associativity) : result_scope.
Notation "' p <- r ;; k" := (bind r (fun p => k))
  (at level 61, p pattern, r at next level, right associativity) : result_scope.

(** Evaluation of a list comprehension: left to right, the first
    exception ends it. *)
Fixpoint mapM {A B} (f : A -> result B) (l : list A) : result (list B) :=
  match l with
  | [] => Ok []
  | a :: l' =>
      match f a with
      | Err e => Err e
      | Ok b =>
          match mapM f l' with
          | Err e => Err e
          | Ok bs => Ok (b :: bs)
          end
      end
  end.

(** ** Dict operations *)

Fixpoint lookup (k : string) (d : dict) : option value :=
  match d with
  | [] => None
  | (k', v) :: d' => if String.eqb k k' then Some v else lookup k d'
  end.

(** [k in d] *)
Definition has (k : string) (d : dict) : bool :=
  match lookup k d with
  | Some _ => true
  | None => false
  end.

(** [d[k] = v]: overwrites the binding of [k], or appends a new one. *)
Fixpoint set (k : string) (v : value) (d : dict) : dict :=
  match d with
  | [] => [(k, v)]
  | (k', v') :: d' =>
      if String.eqb k k' then (k', v) :: d' else (k', v') :: set k v d'
  end.

(** [d.get(k, default)] *)
Definition get_default (k : string) (default : value) (d : dict) : value :=
  match lookup k d with
  | Some v => v
  | None => default
  end.

(** ** Python operators on values *)

(** [v.get(k, default)]: only a dict has the method. *)
Definition get (v : value) (k : string) (default : value) : result value :=
  match v with
  | VDict d => Ok (get_default k default d)
  | _ => Err AttributeError
  end.

(** [bool(v)] *)
Definition truthy (v : value) : bool :=
  match v with
  | VNone => false
  | VBool b => b
  | VInt n => negb (n =? 0)
  | VFloat x => negb (PrimFloat.eqb x PrimFloat.zero)
  | VStr s => negb (String.eqb s "")
  | VList items => match items with [] => false | _ => true end
  | VDict entries => match entries with [] => false | _ => true end
  end.

(** [v[k]] for a string subscript [k] *)
Definition getitem (v : value) (k : string) : result value :=
  match v with
  | VDict d =>
      match lookup k d with
      | Some x => Ok x
      | None => Err (KeyError k)
      end
  | _ => Err TypeError
  end.

Fixpoint is_substring (p s : string) : bool :=
  if String.prefix p s then true
  else match s with
       | EmptyString => false
       | String _ s' => is_substring p s'
       end.

Definition is_str (k : string) (v : value) : bool :=
  match v with
  | VStr s => String.eqb k s
  | _ => false
  end.

(** [k in v] for a string [k]: key membership on a dict, substring test
    on a str, element test on a list, [TypeError] elsewhere. *)
Definition contains (k : string) (v : value) : result bool :=
  match v with
  | VDict d => Ok (has k d)
  | VStr s => Ok (is_substring k s)
  | VList items => Ok (existsb (is_str k) items)
  | _ => Err TypeError
  end.

Fixpoint chars (s : string) : list value :=
  match s with
  | EmptyString => []
  | String c s' => VStr (String c EmptyString) :: chars s'
  end.

(** What [tuple(v)] and [for x in v] enumerate: the items of a list, the
    characters of a str, the keys of a dict. *)
Definition iter (v : value) : result (list value) :=
  match v with
  | VList items => Ok items
  | VStr s => Ok (chars s)
  | VDict d => Ok (map (fun kv => VStr (fst kv)) d)
  | _ => Err TypeError
  end.

(** ** tweet.py: the entities *)

Module TweetUser.
Record t : Type := mk {
  id : value;
  name : value;
  screen_name : value;
  location : value;
  url : value;
  description : value;
  protected : value;
  verified : value;
  followers_count : value;
  friends_count : value;
  listed_count : value;
  favourites_count : value;
  statuses_count : value;
  created_at : value;
  profile_banner_url : value;
  profile_image_url_https : value;
  default_profile : value;
  default_profile_image : value;
  withheld_in_countries : value
}.

Definition deserializer (data : value) : result t :=
  (id <- getitem data "id";;
   name <- getitem data "name";;
   screen_name <- getitem data "screen_name";;
   location <- getitem data "location";;
   url <- getitem data "url";;
   description <- getitem data "description";;
   protected <- getitem data "protected";;
   verified <- getitem data "verified";;
   followers_count <- getitem data "followers_count";;
   friends_count <- getitem data "friends_count";;
   listed_count <- getitem data "listed_count";;
   favourites_count <- getitem data "favourites_count";;
   statuses_count <- getitem data "statuses_count";;
   created_at <- getitem data "created_at";;
   profile_banner_url <-
     match data with
     | VDict d => Ok (get_default "profile_banner_url" VNone d)
     | _ => Err TypeError
     end;;
   profile_image_url_https <- getitem data "profile_image_url_https";;
   default_profile <- getitem data "default_profile";;
   default_profile_image <- getitem data "default_profile_image";;
   withheld_in_countries <- getitem data "withheld_in_countries";;
   Ok (mk id name screen_name location url description protected verified
         followers_count friends_count listed_count favourites_count
         statuses_count created_at profile_banner_url
         profile_image_url_https default_profile default_profile_image
         withheld_in_countries))%result.
End TweetUser.

Module Hashtag.
Record t : Type := mk {
  indices : list value;
  text : value
}.

Definition deserializer (data : value) : result t :=
  (indices <- (i <- getitem data "indices";; iter i);;
   text <- getitem data "text";;
   Ok (mk indices text))%result.
End Hashtag.

Module Url.
Record t : Type := mk {
  display_url : value;
  expanded_url : value;
  indices : list value;
  url : value
}.

Definition deserializer (data : value) : result t :=
  (display_url <- getitem data "display_url";;
   expanded_url <- getitem data "expanded_url";;
   indices <- (i <- getitem data "indices";; iter i);;
   url <- getitem data "url";;
   Ok (mk display_url expanded_url indices url))%result.
End Url.

Module UserMention.
Record t : Type := mk {
  id : value;
  indices : list value;
  name : value;
  screen_name : value
}.

Definition deserializer (data : value) : result t :=
  (id <- getitem data "id";;
   indices <- (i <- getitem data "indices";; iter i);;
   name <- getitem data "name";;
   screen_name <- getitem data "screen_name";;
   Ok (mk id indices name screen_name))%result.
End UserMention.

Module Symbol.
Record t : Type := mk {
  indices : list value;
  text : value
}.

Definition deserializer (data : value) : result t :=
  (indices <- (i <- getitem data "indices";; iter i);;
   text <- getitem data "text";;
   Ok (mk indices text))%result.
End Symbol.

Module Entities.
Record t : Type := mk {
  hashtags : list Hashtag.t;
  urls : list Url.t;
  user_mentions : list UserMention.t;
  symbols : list Symbol.t
}.

Definition deserializer (data : value) : result t :=
  (hashtags <- (l <- getitem data "hashtags";; xs <- iter l;;
                mapM Hashtag.deserializer xs);;
   urls <- (l <- getitem data "urls";; xs <- iter l;;
            mapM Url.deserializer xs);;
   user_mentions <- (l <- getitem data "user_mentions";; xs <- iter l;;
                     mapM UserMention.deserializer xs);;
   symbols <- (l <- getitem data "symbols";; xs <- iter l;;
               mapM Symbol.deserializer xs);;
   Ok (mk hashtags urls user_mentions symbols))%result.
End Entities.

(** ** tweet.py: [Tweet]

    [Tweet.deserializer] assigns to [data['full_text']], and its recursive
    calls do the same to the nested payloads, which the outer dict holds
    by reference.  A payload parsed from JSON is a tree (no dict is
    reachable twice), so the dict after the call is the tree with the
    nested payloads replaced by what the recursive calls left.

    [M A] is a computation over the dict [data]: it returns the dict as
    it stands when the computation ends, normally or by an exception. *)

Definition M (A : Type) : Type := dict -> dict * result A.

Definition ret {A} (a : A) : M A := fun d => (d, Ok a).

Definition bindM {A B} (m : M A) (f : A -> M B) : M B :=
  fun d =>
    match m d with
    | (d', Ok a) => f a d'
    | (d', Err e) => (d', Err e)
    end.

Declare Scope M_scope.
Delimit Scope M_scope with M.
Notation "x <- m ;; k" := (bindM m (fun x => k))
  (at level 61, m at next level, right associativity) : M_scope.

(** A computation that does not touch [data]. *)
Definition lift {A} (r : result A) : M A := fun d => (d, r).

(** [data[k]] *)
Definition read (k : string) : M value := fun d => (d, getitem (VDict d) k).

(** [data.get(k, default)] *)
Definition read_default (k : string) (default : value) : M value :=
  fun d => (d, Ok (get_default k default d)).

(** [k in data] *)
Definition test_in (k : string) : M bool := fun d => (d, Ok (has k d)).

(** [data[k] = v] *)
Definition assign (k : string) (v : value) : M unit :=
  fun d => (set k v d, Ok tt).

Module Tweet.
#[local] Unset Elimination Schemes.
Inductive t : Type := mk {
  created_at : value;
  id : value;
  full_text : value;
  source : value;
  in_reply_to_status_id : value;
  in_reply_to_user_id : value;
  in_reply_to_screen_name : value;
  user : TweetUser.t;
  coordinates : value;
  place : value;
  is_quote_status : value;
  quoted_status_id : value;
  quoted_status : option t;
  retweet_count : value;
  favorite_count : value;
  entities : Entities.t;
  favorited : value;
  retweeted : value;
  possibly_sensitive : value;
  lang : value;
  retweeted_status : option t
}.
#[local] Set Elimination Schemes.

(** Lines 333-339: the text of the post is written under ['full_text']
    when the key is not there. *)
Definition resolve_full_text : M unit :=
  (present <- test_in "full_text";;
   if present then ret tt
   else
     truncated <- read "truncated";;
     extended <- (if truthy truncated then test_in "extended_tweet"
                  else ret false);;
     if extended then
       ext <- read "extended_tweet";;
       v <- lift (getitem ext "full_text");;
       assign "full_text" v
     else
       retweet_extended <-
         (reshare <- test_in "retweeted_status";;
          if reshare then
            rs <- read "retweeted_status";;
            lift (contains "extended_tweet" rs)
          else ret false);;
       if retweet_extended then
         rs <- read "retweeted_status";;
         ext <- lift (getitem rs "extended_tweet");;
         v <- lift (getitem ext "full_text");;
         assign "full_text" v
       else
         v <- read "text";;
         assign "full_text" v)%M.

(** [Tweet.deserializer(data[k]) if k in data else None], where
    [call k d] is the outcome of the recursive call on [d[k]] when [k] is
    a key of [d]: the nested dict as the call leaves it, and its result. *)
Definition nested (call : string -> dict -> option (value * result t))
    (k : string) : M (option t) :=
  fun d =>
    match call k d with
    | None => (d, Ok None)
    | Some (v', Ok tw) => (set k v' d, Ok (Some tw))
    | Some (v', Err e) => (set k v' d, Err e)
    end.

(** Lines 341-363: the [return Tweet(...)] statement, its arguments
    evaluated in the order they are written. *)
Definition construct (call : string -> dict -> option (value * result t))
    : M t :=
  (created_at <- read "created_at";;
   id <- read "id";;
   full_text <- read "full_text";;
   source <- read "source";;
   in_reply_to_status_id <- read "in_reply_to_status_id";;
   in_reply_to_user_id <- read "in_reply_to_user_id";;
   in_reply_to_screen_name <- read "in_reply_to_screen_name";;
   user <- (u <- read "user";; lift (TweetUser.deserializer u));;
   coordinates <- read "coordinates";;
   place <- read "place";;
   is_quote_status <- read "is_quote_status";;
   quoted_status_id <- read_default "quoted_status_id" VNone;;
   quoted_status <- nested call "quoted_status";;
   retweet_count <- read "retweet_count";;
   favorite_count <- read "favorite_count";;
   entities <- (e <- read "entities";; lift (Entities.deserializer e));;
   favorited <- read "favorited";;
   retweeted <- read "retweeted";;
   possibly_sensitive <- read_default "possibly_sensitive" VNone;;
   lang <- read "lang";;
   retweeted_status <- nested call "retweeted_status";;
   ret (mk created_at id full_text source in_reply_to_status_id
          in_reply_to_user_id in_reply_to_screen_name user coordinates place
          is_quote_status quoted_status_id quoted_status retweet_count
          favorite_count entities favorited retweeted possibly_sensitive
          lang retweeted_status))%M.

(** Lines 333-363, the recursive calls abstracted as [call]. *)
Definition body (call : string -> dict -> option (value * result t)) : M t :=
  (_ <- resolve_full_text;; construct call)%M.

(** The deserializer returns the payload as the call leaves it and the
    outcome.  The recursive calls are made on the values bound in the dict
    the function was given, which is where the running call finds them:
    the only key it adds is ['full_text'] (see [deserializer_eq] below for
    the equation that reads [data] at the time of the call).  All it can
    do to a value that is not a dict is raise [TypeError]: ['full_text'
    not in data] raises it on [None], a bool and a number, and the
    subscript [data['truncated']] or [data['created_at']] raises it on
    a str and a list. *)
Fixpoint deserializer (data : value) : value * result t :=
  match data with
  | VDict d =>
      let call := fun (k : string) (_ : dict) =>
        (fix sub (l : dict) : option (value * result t) :=
           match l with
           | [] => None
           | (k', v) :: l' =>
               if String.eqb k k' then Some (deserializer v) else sub l'
           end) d in
      let (d', r) := body call d in (VDict d', r)
  | _ => (data, Err TypeError)
  end.
End Tweet.

(** ** data_getter.py: presentation helpers *)

(** Truth value of an [Optional[Tweet]]: the dataclass defines neither
    [__bool__] nor [__len__], so an instance is true and [None] is not. *)
Definition is_tweet (o : option Tweet.t) : bool :=
  match o with
  | Some _ => true
  | None => false
  end.

Definition nl : string := String (ascii_of_nat 10) EmptyString.

Section Presentation.

(** [str(v)] for a value that is not a str (the text of [None], of a
    number, of a list...), as the f-strings of [pretty_print] call it. *)
Variable str_of : value -> string.

(** [f'{v}'] *)
Definition fmt (v : value) : string :=
  match v with
  | VStr s => s
  | _ => str_of v
  end.

Definition sender (tweet : Tweet.t) : value :=
  TweetUser.screen_name (Tweet.user tweet).

Definition pretty_print (tweet : Tweet.t) : string :=
  match Tweet.retweeted_status tweet with
  | Some rt =>
      match Tweet.quoted_status rt with
      | None =>
          "A new retweet" ++ nl ++ "sender: " ++ fmt (sender tweet) ++ nl
          ++ "retweet from: " ++ fmt (sender rt) ++ nl
          ++ "text: " ++ fmt (Tweet.full_text rt)
      | Some q =>
          "A new retweet" ++ nl ++ "sender: " ++ fmt (sender tweet) ++ nl
          ++ "retweet from: " ++ fmt (sender rt) ++ nl
          ++ "quoted from: " ++ fmt (sender q) ++ nl
          ++ "text: " ++ fmt (Tweet.full_text rt) ++ nl
          ++ "origin text: " ++ fmt (Tweet.full_text q)
      end
  | None =>
      match Tweet.quoted_status tweet with
      | Some q =>
          "A new quoted tweet" ++ nl ++ "sender: " ++ fmt (sender tweet) ++ nl
          ++ "quoted from: " ++ fmt (sender q) ++ nl
          ++ "quote text: " ++ fmt (Tweet.full_text tweet) ++ nl
          ++ "origin text: " ++ fmt (Tweet.full_text q)
      | None =>
          "A new tweet" ++ nl ++ "sender: " ++ fmt (sender tweet) ++ nl
          ++ "text: " ++ fmt (Tweet.full_text tweet)
      end
  end.

End Presentation.

Fixpoint get_quote (tweet : Tweet.t) : value * value :=
  match Tweet.retweeted_status tweet with
  | Some rt => get_quote rt
  | None =>
      match Tweet.quoted_status tweet with
      | None => (VNone, VNone)
      | Some q => (sender q, Tweet.full_text q)
      end
  end.

(** One row of the frame of [tweets_to_df], under its eight columns
    ['create time'], ['sender'], ['text'], ['is_retweet'],
    ['retweet_sender'], ['is_quote'], ['quoted_tweet_sender'] and
    ['quoted_tweet_text']. *)
Module Row.
Record t : Type := mk {
  create_time : value;
  sender : value;
  text : value;
  is_retweet : value;
  retweet_sender : value;
  is_quote : value;
  quoted_tweet_sender : value;
  quoted_tweet_text : value
}.
End Row.

Definition row_of (tweet : Tweet.t) : Row.t :=
  Row.mk
    (Tweet.created_at tweet)
    (sender tweet)
    (Tweet.full_text tweet)
    (if is_tweet (Tweet.retweeted_status tweet) then VBool true
     else VBool false)
    (match Tweet.retweeted_status tweet with
     | None => VNone
     | Some rt => sender rt
     end)
    (if truthy (fst (get_quote tweet)) then VBool true else VNone)
    (fst (get_quote tweet))
    (snd (get_quote tweet)).

(** The rows handed to [pd.DataFrame], in the order of [tweets]. *)
Definition tweets_to_df (tweets : list Tweet.t) : list Row.t :=
  map row_of tweets.

(** ** data_getter.py: [DataGetter] *)

(** What [collect_tweets] uses of a [tweepy.Status]. *)
Module Status.
Record t : Type := mk {
  id : Z;
  _json : value
}.
End Status.

Definition MAX_COUNT : Z := 200.

(** The outcome of a call into the client library. *)
Inductive outcome (E A : Type) : Type :=
| Returned (a : A)
| Raised (e : E).
Arguments Returned {E A} a.
Arguments Raised {E A} e.

Section DataGetter.

(** The state of everything outside the program: the platform and the
    client library. *)
Variable World : Type.

(** Whatever the client library can raise. *)
Variable Exception : Type.

(** [self.api.verify_credentials()] *)
Variable verify_credentials : World -> World * outcome Exception value.

Definition verify_authentication (w : World) : World * bool :=
  match verify_credentials w with
  | (w', Returned v) => (w', if truthy v then true else false)
  | (w', Raised _) => (w', false)
  end.

(** [method(count=c, *args, **kwargs)] is [method w c None] and
    [method(count=c, max_id=m, *args, **kwargs)] is [method w c (Some m)];
    the other arguments are the same at every call and are part of
    [method]. *)
Variable method : World -> Z -> option Z -> World * list Status.t.

(** The loop of [collect_tweets], run for at most [fuel] iterations: it
    gives the world as the calls left it, and the list the function
    returns, or [None] when the loop is still running after [fuel]
    iterations. *)
Fixpoint collect_loop (fuel : nat) (w : World) (cnt : Z)
    (oldest_id : option Z) (result : list Status.t)
    : World * option (list Status.t) :=
  match fuel with
  | O => (w, None)
  | S fuel' =>
      if cnt =? 0 then (w, Some result)
      else
        let (w', new_tweets) :=
          match oldest_id with
          | None => method w (Z.min MAX_COUNT cnt) None
          | Some oldest => method w (Z.min MAX_COUNT cnt) (Some (oldest - 1))
          end in
        match new_tweets with
        | [] => (w', Some result)
        | first :: others =>
            collect_loop fuel' w'
              (cnt - Z.of_nat (length new_tweets))
              (Some (Status.id (last others first)))
              (result ++ new_tweets)
        end
  end.

Definition collect_tweets (fuel : nat) (w : World) (count : Z)
    : World * option (list Status.t) :=
  collect_loop fuel w count None [].

End DataGetter.

(** ** data_getter.py: [parse_tweets] and the methods it decorates *)

(** The comprehension of [outer_parser],
    [[Tweet.deserializer(twt._json) for twt in statuses]]: the statuses
    as the calls leave them (each call writes to the [_json] of its
    status), and the posts, or the first exception.  The statuses are
    distinct objects, as the pages of the client library are. *)
Fixpoint deserialize_all (statuses : list Status.t)
    : list Status.t * result (list Tweet.t) :=
  match statuses with
  | [] => ([], Ok [])
  | twt :: rest =>
      let (json', r) := Tweet.deserializer (Status._json twt) in
      let twt' := Status.mk (Status.id twt) json' in
      match r with
      | Err e => (twt' :: rest, Err e)
      | Ok tweet =>
          let (rest', rs) := deserialize_all rest in
          (twt' :: rest',
           match rs with
           | Ok tweets => Ok (tweet :: tweets)
           | Err e => Err e
           end)
      end
  end.

(** [parse_tweets(func)]: [func] is run, then the comprehension over
    what it returns ([None]: [func] is still running when the fuel of its
    loops is spent). *)
Definition parse_tweets {World Args : Type}
    (func : Args -> World -> World * option (list Status.t))
    (args : Args) (w : World)
    : World * option (list Status.t * result (list Tweet.t)) :=
  let (w', returned) := func args w in
  (w', option_map deserialize_all returned).

Section Timelines.

Variable World : Type.

(** [self.api.home_timeline(count=c, max_id=m, tweet_mode='extended')] *)
Variable home_timeline : World -> Z -> option Z -> World * list Status.t.

(** [self.api.user_timeline(count=c, max_id=m, screen_name=u,
    tweet_mode='extended')] *)
Variable user_timeline :
  string -> World -> Z -> option Z -> World * list Status.t.

(** The method under the decorator, lines 127-131. *)
Definition get_timeline_tweets_body (fuel : nat) (count : Z) (w : World)
    : World * option (list Status.t) :=
  collect_tweets World home_timeline fuel w count.

Definition get_timeline_tweets (fuel : nat) :=
  parse_tweets (get_timeline_tweets_body fuel).

(** The loop of lines 142-150 over the users left, [result] being the
    list built so far. *)
Fixpoint get_historical_loop (fuel : nat) (count : Z) (users : list string)
    (w : World) (result : list Status.t) : World * option (list Status.t) :=
  match users with
  | [] => (w, Some result)
  | user_id :: rest =>
      match collect_tweets World (user_timeline user_id) fuel w count with
      | (w', Some collected) =>
          get_historical_loop fuel count rest w' (result ++ collected)
      | (w', None) => (w', None)
      end
  end.

(** The method under the decorator, lines 141-151. *)
Definition get_historical_body (fuel : nat) (args : Z * list string)
    (w : World) : World * option (list Status.t) :=
  get_historical_loop fuel (fst args) (snd args) w [].

Definition get_historical (fuel : nat) (count : Z) (users : list string) :=
  parse_tweets (get_historical_body fuel) (count, users).

End Timelines.

(** ** data_getter.py: [stream] *)

(** What [stream] does that can be seen from outside: a call of
    [stream.filter(follow=...)], a [print], a [time.sleep]. *)
Inductive printed (Exception : Type) : Type :=
| Text (s : string)
| Exc (e : Exception).
Arguments Text {Exception} s.
Arguments Exc {Exception} e.

Inductive event (Exception : Type) : Type :=
| Filter (follow : list value)
| Print (what : printed Exception)
| Sleep (seconds : Z).
Arguments Filter {Exception} follow.
Arguments Print {Exception} what.
Arguments Sleep {Exception} seconds.

(** What [stream] can end with: an exception of the client library, or
    one of the subscript [user._json['id_str']]. *)
Inductive error (Exception : Type) : Type :=
| Library (e : Exception)
| Builtin (e : exn).
Arguments Library {Exception} e.
Arguments Builtin {Exception} e.

Section Stream.

Variable World : Type.
Variable Exception : Type.

(** [isinstance(e, urllib3.exceptions.ProtocolError)] *)
Variable is_protocol_error : Exception -> bool.

(** [self.api.lookup_users(screen_names=users)]: the [_json] of each
    user it returns. *)
Variable lookup_users :
  list string -> World -> World * outcome Exception (list value).

(** [stream.filter(follow=users_id)], for the stream built over the
    listener of [callback]: the call blocks while the connection lasts
    and hands the posts it receives to the listener. *)
Variable filter : list value -> World -> World * outcome Exception unit.

Variable print : printed Exception -> World -> World.
Variable sleep : Z -> World -> World.

(** Line 161, [[user._json['id_str'] for user in ...]]. *)
Definition users_id (users : list value) : result (list value) :=
  mapM (fun user_json => getitem user_json "id_str") users.

(** Lines 164-170, for at most [fuel] calls of [filter]: the world, what
    was done, and the exception the loop ended with, or [None] when it is
    still running after [fuel] calls. *)
Fixpoint stream_loop (fuel : nat) (users_id : list value) (w : World)
    : World * list (event Exception) * option (error Exception) :=
  match fuel with
  | O => (w, [], None)
  | S fuel' =>
      match filter users_id w with
      | (w1, Returned _) =>
          let '(w2, done, r) := stream_loop fuel' users_id w1 in
          (w2, Filter users_id :: done, r)
      | (w1, Raised e) =>
          if is_protocol_error e then
            let w2 := print (Text "error") w1 in
            let w3 := print (Exc e) w2 in
            let w4 := sleep 15 w3 in
            let '(w5, done, r) := stream_loop fuel' users_id w4 in
            (w5,
             Filter users_id :: Print (Text "error") :: Print (Exc e)
               :: Sleep 15 :: done,
             r)
          else (w1, [Filter users_id], Some (Library e))
      end
  end.

Definition stream (fuel : nat) (users : list string) (w : World)
    : World * list (event Exception) * option (error Exception) :=
  match lookup_users users w with
  | (w1, Raised e) => (w1, [], Some (Library e))
  | (w1, Returned found) =>
      match users_id found with
      | Err e => (w1, [], Some (Builtin e))
      | Ok ids => stream_loop fuel ids w1
      end
  end.

End Stream.

(** ** Sample payloads

    A user record, an entity collection with one hashtag, and the keys
    every post payload carries; the posts of the examples below add their
    text keys and nested posts to them. *)

Definition sample_user (handle : string) : value :=
  VDict [("id", VInt 7); ("name", VStr "Sample"); ("screen_name", VStr handle);
         ("location", VNone); ("url", VNone); ("description", VNone);
         ("protected", VBool false); ("verified", VBool false);
         ("followers_count", VInt 3); ("friends_count", VInt 4);
         ("listed_count", VInt 0); ("favourites_count", VInt 5);
         ("statuses_count", VInt 6);
         ("created_at", VStr "Mon Nov 29 21:18:15 +0000 2010");
         ("profile_image_url_https", VStr "https://example.org/p.png");
         ("default_profile", VBool true);
         ("default_profile_image", VBool true);
         ("withheld_in_countries", VList [])].

Definition sample_entities : value :=
  VDict [("hashtags",
          VList [VDict [("indices", VList [VInt 0; VInt 4]);
                        ("text", VStr "tag")]]);
         ("urls", VList []);
         ("user_mentions", VList []);
         ("symbols", VList [])].

Definition sample_fields (handle : string) : dict :=
  [("created_at", VStr "Wed Oct 10 20:19:24 +0000 2018"); ("id", VInt 100);
   ("source", VStr "web");
   ("in_reply_to_status_id", VNone); ("in_reply_to_user_id", VNone);
   ("in_reply_to_screen_name", VNone);
   ("user", sample_user handle);
   ("coordinates", VNone); ("place", VNone);
   ("is_quote_status", VBool false);
   ("retweet_count", VInt 0); ("favorite_count", VInt 0);
   ("entities", sample_entities);
   ("favorited", VBool false); ("retweeted", VBool false);
   ("lang", VStr "en")].

(** [{"text": "hello", "truncated": false, ...}] with no ['full_text']. *)
Definition plain_post : value :=
  VDict (("text", VStr "hello") :: ("truncated", VBool false)
         :: sample_fields "alice").

(** A payload whose ['text'] is [null]. *)
Definition null_text_post : value :=
  VDict (("text", VNone) :: ("truncated", VBool false)
         :: sample_fields "alice").

(** A payload that has no ['lang'], and [null] where the author's record
    should be. *)
Definition authorless_post : value :=
  VDict (("text", VStr "hello") :: ("truncated", VBool false)
         :: set "user" VNone
              (filter (fun kv => negb (String.eqb "lang" (fst kv)))
                 (sample_fields "alice"))).

(** [plain_post] without its ['lang']. *)
Definition langless_post : value :=
  VDict (("text", VStr "hello") :: ("truncated", VBool false)
         :: filter (fun kv => negb (String.eqb "lang" (fst kv)))
              (sample_fields "alice")).

(** A post as [tweet_mode='extended'] returns it. *)
Definition extended_post (handle text : string) : value :=
  VDict (("full_text", VStr text) :: sample_fields handle).

(** A truncated post of the stream, with its extension record. *)
Definition truncated_post : value :=
  VDict (("text", VStr "a long te...") :: ("truncated", VBool true)
         :: ("extended_tweet", VDict [("full_text", VStr "a long text")])
         :: sample_fields "alice").

(** A post quoting [quoted]. *)
Definition quoting_post (handle text : string) (quoted : value) : value :=
  VDict (("full_text", VStr text) :: ("quoted_status", quoted)
         :: sample_fields handle).

(** A reshare of [original]. *)
Definition reshare_post (handle : string) (original : value) : value :=
  VDict (("text", VStr "RT ...") :: ("truncated", VBool false)
         :: ("retweeted_status", original) :: sample_fields handle).

(** ** Notions the properties are stated with *)

(** The post at the end of the chain of reshares that starts at [tweet]. *)
Fixpoint original (tweet : Tweet.t) : Tweet.t :=
  match Tweet.retweeted_status tweet with
  | Some rt => original rt
  | None => tweet
  end.

(** The four texts of [pretty_print]: (a) a reshare, (b) a reshare of a
    quote, (c) a quote, (d) a plain post. *)
Definition text_reshare (sender from text : string) : string :=
  "A new retweet" ++ nl ++ "sender: " ++ sender ++ nl
  ++ "retweet from: " ++ from ++ nl ++ "text: " ++ text.

Definition text_reshare_of_quote (sender from quoted text origin : string)
    : string :=
  "A new retweet" ++ nl ++ "sender: " ++ sender ++ nl
  ++ "retweet from: " ++ from ++ nl ++ "quoted from: " ++ quoted ++ nl
  ++ "text: " ++ text ++ nl ++ "origin text: " ++ origin.

Definition text_quote (sender quoted text origin : string) : string :=
  "A new quoted tweet" ++ nl ++ "sender: " ++ sender ++ nl
  ++ "quoted from: " ++ quoted ++ nl ++ "quote text: " ++ text ++ nl
  ++ "origin text: " ++ origin.

Definition text_plain (sender text : string) : string :=
  "A new tweet" ++ nl ++ "sender: " ++ sender ++ nl ++ "text: " ++ text.

(** *** Observing the calls of [collect_tweets]

    A [fetch] is one call of [method] as the loop made it: the [count]
    it asked for, the [max_id] it passed (or none), the page it got.
    [recording method] is [method] keeping, next to the world, the list
    of the calls made so far. *)
Record fetch : Type := mk_fetch {
  asked : Z;
  cursor : option Z;
  page : list Status.t
}.

Definition recording {World : Type}
    (method : World -> Z -> option Z -> World * list Status.t)
    : World * list fetch -> Z -> option Z
      -> (World * list fetch) * list Status.t :=
  fun st count max_id =>
    let (w', p) := method (fst st) count max_id in
    ((w', (snd st ++ [mk_fetch count max_id p])%list), p).

(** The calls [collect_tweets] makes in at most [fuel] iterations. *)
Definition calls {World : Type}
    (method : World -> Z -> option Z -> World * list Status.t)
    (fuel : nat) (w : World) (count : Z) : list fetch :=
  snd (fst (collect_tweets (World * list fetch) (recording method)
              fuel (w, []) count)).

(** Whether a run of the loop returned. *)
Definition returned {A} (o : option A) : bool :=
  match o with
  | Some _ => true
  | None => false
  end.

(** The number of items in the pages of some calls. *)
Fixpoint total (fs : list fetch) : Z :=
  match fs with
  | [] => 0
  | f :: fs' => Z.of_nat (length (page f)) + total fs'
  end.

(** The id of the last item of a page that has one. *)
Definition last_id (p : list Status.t) : option Z :=
  match p with
  | [] => None
  | first :: others => Some (Status.id (last others first))
  end.

(** The calls of a run of the loop entered with [cnt] and [oldest_id]:
    each asks for [min(200, cnt)] items below the last id seen, an empty
    page ends the run, and a run that returned without one ended on
    [cnt = 0]. *)
Fixpoint chain (returned : bool) (cnt : Z) (oldest_id : option Z)
    (fs : list fetch) : Prop :=
  match fs with
  | [] => returned = true -> cnt = 0
  | f :: fs' =>
      cnt <> 0
      /\ asked f = Z.min MAX_COUNT cnt
      /\ cursor f = option_map (fun oldest => oldest - 1) oldest_id
      /\ match page f with
         | [] => fs' = [] /\ returned = true
         | _ :: _ =>
             chain returned (cnt - Z.of_nat (length (page f)))
               (last_id (page f)) fs'
         end
  end.

(** The stopping rule in the words of the specification: no call is made
    once the pages received hold the requested total or one of them was
    empty. *)
Definition stops_when_satisfied (count : Z) (log : list fetch) : Prop :=
  forall i f,
    nth_error log i = Some f ->
    total (firstn i log) < count
    /\ Forall (fun g => page g <> []) (firstn i log).

(** A fetch method respects [count] when no page holds more items than
    were asked for. *)
Definition respects_count {World : Type}
    (method : World -> Z -> option Z -> World * list Status.t) : Prop :=
  forall w count max_id,
    0 < count -> Z.of_nat (length (snd (method w count max_id))) <= count.

(** A fetch method that serves a timeline, newest first: it hands out
    the next [count] items and keeps the rest. *)
Definition timeline (w : list Status.t) (count : Z) (max_id : option Z)
    : list Status.t * list Status.t :=
  (skipn (Z.to_nat count) w, firstn (Z.to_nat count) w).

(** A fetch method that returns prepared pages one after the other,
    whatever it is asked, and empty pages after them. *)
Definition scripted (w : list (list Status.t)) (count : Z)
    (max_id : option Z) : list (list Status.t) * list Status.t :=
  match w with
  | [] => ([], [])
  | p :: w' => (w', p)
  end.

(** [n] items with the ids [top], [top - 1], ... *)
Fixpoint items (n : nat) (top : Z) : list Status.t :=
  match n with
  | O => []
  | S n' => Status.mk top VNone :: items n' (top - 1)
  end.

(** A computation that leaves [data] as it found it. *)
Definition reads_only {A} (m : M A) : Prop :=
  forall d d' r, m d = (d', r) -> d' = d.

(** Each field of the post holds what the payload binds to the key of
    the same name; the three keys read with [get] default to [None]. *)
Definition fields_from (d : dict) (t : Tweet.t) : Prop :=
  lookup "created_at" d = Some (Tweet.created_at t)
  /\ lookup "id" d = Some (Tweet.id t)
  /\ lookup "full_text" d = Some (Tweet.full_text t)
  /\ lookup "source" d = Some (Tweet.source t)
  /\ lookup "in_reply_to_status_id" d = Some (Tweet.in_reply_to_status_id t)
  /\ lookup "in_reply_to_user_id" d = Some (Tweet.in_reply_to_user_id t)
  /\ lookup "in_reply_to_screen_name" d
     = Some (Tweet.in_reply_to_screen_name t)
  /\ (exists u, lookup "user" d = Some u
                /\ TweetUser.deserializer u = Ok (Tweet.user t))
  /\ lookup "coordinates" d = Some (Tweet.coordinates t)
  /\ lookup "place" d = Some (Tweet.place t)
  /\ lookup "is_quote_status" d = Some (Tweet.is_quote_status t)
  /\ Tweet.quoted_status_id t = get_default "quoted_status_id" VNone d
  /\ lookup "retweet_count" d = Some (Tweet.retweet_count t)
  /\ lookup "favorite_count" d = Some (Tweet.favorite_count t)
  /\ (exists e, lookup "entities" d = Some e
                /\ Entities.deserializer e = Ok (Tweet.entities t))
  /\ lookup "favorited" d = Some (Tweet.favorited t)
  /\ lookup "retweeted" d = Some (Tweet.retweeted t)
  /\ Tweet.possibly_sensitive t = get_default "possibly_sensitive" VNone d
  /\ lookup "lang" d = Some (Tweet.lang t).

(** The recursive call of the deserializer on what [data] binds to [k]. *)
Definition recursive_call (k : string) (data : dict)
    : option (value * result Tweet.t) :=
  option_map Tweet.deserializer (lookup k data).

(** The keys [TweetUser.deserializer] subscripts, with the field each
    goes to. *)
Definition user_fields : list (string * (TweetUser.t -> value)) :=
  [("id", TweetUser.id); ("name", TweetUser.name);
   ("screen_name", TweetUser.screen_name);
   ("location", TweetUser.location); ("url", TweetUser.url);
   ("description", TweetUser.description);
   ("protected", TweetUser.protected); ("verified", TweetUser.verified);
   ("followers_count", TweetUser.followers_count);
   ("friends_count", TweetUser.friends_count);
   ("listed_count", TweetUser.listed_count);
   ("favourites_count", TweetUser.favourites_count);
   ("statuses_count", TweetUser.statuses_count);
   ("created_at", TweetUser.created_at);
   ("profile_image_url_https", TweetUser.profile_image_url_https);
   ("default_profile", TweetUser.default_profile);
   ("default_profile_image", TweetUser.default_profile_image);
   ("withheld_in_countries", TweetUser.withheld_in_countries)].

(** The payload has nothing under [k]: the key is missing, or bound to
    [null]. *)
Definition unset (k : string) (d : dict) : bool :=
  match lookup k d with
  | None => true
  | Some VNone => true
  | Some _ => false
  end.

(** The fields of a post typed [Optional[...]] that hold a value of the
    payload, and those of its author (the two nested posts apart). *)
Definition optional_fields : list (string * (Tweet.t -> value)) :=
  [("in_reply_to_status_id", Tweet.in_reply_to_status_id);
   ("in_reply_to_user_id", Tweet.in_reply_to_user_id);
   ("in_reply_to_screen_name", Tweet.in_reply_to_screen_name);
   ("coordinates", Tweet.coordinates); ("place", Tweet.place);
   ("quoted_status_id", Tweet.quoted_status_id);
   ("favorited", Tweet.favorited); ("retweeted", Tweet.retweeted);
   ("possibly_sensitive", Tweet.possibly_sensitive);
   ("lang", Tweet.lang)].

Definition optional_user_fields : list (string * (TweetUser.t -> value)) :=
  [("location", TweetUser.location); ("url", TweetUser.url);
   ("description", TweetUser.description);
   ("profile_banner_url", TweetUser.profile_banner_url)].

(** *** The text of a post

    What lines 334-339 pick for a payload that has no ['full_text']: the
    extension record's text when the payload is truncated and has one,
    else the text of the extension record of the reshared post when it
    has one, else the short ['text']. *)
(** The last two cases, lines 336-339. *)
Definition reshare_text_source (d : dict) : result value :=
  (retweet_extended <-
     (if has "retweeted_status" d then
        rs <- getitem (VDict d) "retweeted_status";;
        contains "extended_tweet" rs
      else Ok false);;
   if retweet_extended then
     rs <- getitem (VDict d) "retweeted_status";;
     ext <- getitem rs "extended_tweet";;
     getitem ext "full_text"
   else getitem (VDict d) "text")%result.

Definition text_source (d : dict) : result value :=
  (truncated <- getitem (VDict d) "truncated";;
   if truthy truncated && has "extended_tweet" d then
     ext <- getitem (VDict d) "extended_tweet";;
     getitem ext "full_text"
   else reshare_text_source d)%result.

Definition is_string (v : value) : bool :=
  match v with
  | VStr _ => true
  | _ => false
  end.

(** The value bound to [k] in [v] is a str, if [v] is a dict that binds
    [k]. *)
Definition string_at (k : string) (v : value) : bool :=
  match v with
  | VDict d =>
      match lookup k d with
      | Some x => is_string x
      | None => true
      end
  | _ => true
  end.

(** The payload keeps strs where the platform's schema has text: under
    ['full_text'] and ['text'], and under ['full_text'] in its extension
    record and in that of the reshared post. *)
Definition texts_are_strings (d : dict) : bool :=
  string_at "full_text" (VDict d)
  && string_at "text" (VDict d)
  && match lookup "extended_tweet" d with
     | Some ext => string_at "full_text" ext
     | None => true
     end
  && match lookup "retweeted_status" d with
     | Some (VDict rs) =>
         match lookup "extended_tweet" rs with
         | Some ext => string_at "full_text" ext
         | None => true
         end
     | _ => true
     end.

(** *** What a call leaves in the payload

    [filled data data']: [data'] is [data] where post payloads may have
    gained a ['full_text'].  Nothing else differs: in a post payload every
    key other than ['full_text'], ['quoted_status'] and
    ['retweeted_status'] is bound as before, a ['full_text'] that was
    there is kept, one that was not is either still missing or bound to
    what [text_source] picks, and the nested posts are filled in turn.  A
    value that is not a dict is left as it is. *)
#[local] Unset Elimination Schemes.
Inductive filled : value -> value -> Prop :=
| filled_dict (d d' : dict) :
    (forall k,
       String.eqb "full_text" k = false ->
       String.eqb "quoted_status" k = false ->
       String.eqb "retweeted_status" k = false ->
       lookup k d' = lookup k d) ->
    (forall v, lookup "full_text" d = Some v ->
               lookup "full_text" d' = Some v) ->
    (lookup "full_text" d = None ->
     lookup "full_text" d' = None
     \/ exists v, text_source d = Ok v /\ lookup "full_text" d' = Some v) ->
    (forall k,
       k = "quoted_status" \/ k = "retweeted_status" ->
       (lookup k d = None -> lookup k d' = None)
       /\ (forall v, lookup k d = Some v ->
           exists v', lookup k d' = Some v' /\ filled v v')) ->
    filled (VDict d) (VDict d')
| filled_other (v : value) :
    (forall d, v <> VDict d) -> filled v v.
#[local] Set Elimination Schemes.

(** [refilled k d d']: [d'] is [d] where the post bound to [k], if any,
    may have been filled. *)
Definition refilled (k : string) (d d' : dict) : Prop :=
  (forall k', String.eqb k k' = false -> lookup k' d' = lookup k' d)
  /\ (lookup k d = None -> lookup k d' = None)
  /\ (forall v, lookup k d = Some v ->
      exists v', lookup k d' = Some v' /\ filled v v').

(** [has_texts data]: the post payload [data] has a ['full_text'], and
    so have the posts nested in it. *)
Inductive has_texts : value -> Prop :=
| has_texts_dict (d : dict) :
    has "full_text" d = true ->
    (forall k v,
       k = "quoted_status" \/ k = "retweeted_status" ->
       lookup k d = Some v -> has_texts v) ->
    has_texts (VDict d).

(** *** Required keys and shapes

    The keys each deserializer subscripts: a payload without one of them
    makes the call raise [KeyError]. *)
Definition user_required : list string := map fst user_fields.

Definition hashtag_required : list string := ["indices"; "text"].

Definition url_required : list string :=
  ["display_url"; "expanded_url"; "indices"; "url"].

Definition user_mention_required : list string :=
  ["id"; "indices"; "name"; "screen_name"].

Definition symbol_required : list string := ["indices"; "text"].

Definition tweet_required : list string :=
  ["created_at"; "id"; "source"; "in_reply_to_status_id";
   "in_reply_to_user_id"; "in_reply_to_screen_name"; "user"; "coordinates";
   "place"; "is_quote_status"; "retweet_count"; "favorite_count";
   "entities"; "favorited"; "retweeted"; "lang"].

(** [v] is a dict that has all of [keys]. *)
Definition has_keys (keys : list string) (v : value) : bool :=
  match v with
  | VDict d => forallb (fun k => has k d) keys
  | _ => false
  end.

(** The dict has the array [k], and each record in it has [keys]. *)
Definition items_have (keys : list string) (k : string) (d : dict) : bool :=
  match lookup k d with
  | Some (VList xs) => forallb (has_keys keys) xs
  | Some _ => true
  | None => false
  end.

Definition complete_entities (e : value) : bool :=
  match e with
  | VDict d =>
      items_have hashtag_required "hashtags" d
      && items_have url_required "urls" d
      && items_have user_mention_required "user_mentions" d
      && items_have symbol_required "symbols" d
  | _ => false
  end.

(** [v[k]] when [v] is a dict with the key. *)
Definition at_key (k : string) (v : value) : option value :=
  match v with
  | VDict d => lookup k d
  | _ => None
  end.

Definition has_at (k : string) (o : option value) : bool :=
  match o with
  | Some v => match at_key k v with Some _ => true | None => false end
  | None => false
  end.

(** The keys lines 334-339 need in a payload that has no ['full_text']:
    ['truncated'], then the ['full_text'] of the extension record they
    take the text from, or ['text'] when there is no such record. *)
(** The keys lines 336-339 need. *)
Definition reshare_text_keys (d : dict) : bool :=
  if has_at "extended_tweet" (lookup "retweeted_status" d) then
    match lookup "retweeted_status" d with
    | Some rs => has_at "full_text" (at_key "extended_tweet" rs)
    | None => false
    end
  else has "text" d.

Definition text_keys (d : dict) : bool :=
  match lookup "truncated" d with
  | None => false
  | Some truncated =>
      if truthy truncated && has "extended_tweet" d then
        has_at "full_text" (lookup "extended_tweet" d)
      else reshare_text_keys d
  end.

(** [complete data]: the post payload [data] has every key the
    deserializers need, in itself, in its author, in its entities and in
    the posts nested in it. *)
Inductive complete : value -> Prop :=
| complete_post (d : dict) :
    has "full_text" d || text_keys d = true ->
    forallb (fun k => has k d) tweet_required = true ->
    (forall u, lookup "user" d = Some u ->
               has_keys user_required u = true) ->
    (forall e, lookup "entities" d = Some e -> complete_entities e = true) ->
    (forall k v,
       k = "quoted_status" \/ k = "retweeted_status" ->
       lookup k d = Some v -> complete v) ->
    complete (VDict d).

Definition is_dict (v : value) : bool :=
  match v with
  | VDict _ => true
  | _ => false
  end.

(** What [tuple(...)] and a comprehension accept. *)
Definition iterable (v : value) : bool :=
  match v with
  | VList _ | VStr _ | VDict _ => true
  | _ => false
  end.

(** A record of an entity array: a dict whose ['indices'], if any, can
    be enumerated. *)
Definition shaped_item (x : value) : bool :=
  match x with
  | VDict d =>
      match lookup "indices" d with
      | Some i => iterable i
      | None => true
      end
  | _ => false
  end.

Definition shaped_items (k : string) (d : dict) : bool :=
  match lookup k d with
  | Some (VList xs) => forallb shaped_item xs
  | Some _ => false
  | None => true
  end.

Definition shaped_entities (e : value) : bool :=
  match e with
  | VDict d =>
      shaped_items "hashtags" d && shaped_items "urls" d
      && shaped_items "user_mentions" d && shaped_items "symbols" d
  | _ => false
  end.

(** [well_shaped data]: the post payload [data] is a dict, and what it
    binds to ['user'], ['entities'], ['extended_tweet'],
    ['quoted_status'] and ['retweeted_status'], if anything, has the
    shape the platform's schema gives it: records are dicts, entity
    collections arrays of records, nested posts well-shaped posts. *)
Inductive well_shaped : value -> Prop :=
| well_shaped_post (d : dict) :
    (forall u, lookup "user" d = Some u -> is_dict u = true) ->
    (forall e, lookup "entities" d = Some e -> shaped_entities e = true) ->
    (forall x, lookup "extended_tweet" d = Some x -> is_dict x = true) ->
    (forall k v,
       k = "quoted_status" \/ k = "retweeted_status" ->
       lookup k d = Some v -> well_shaped v) ->
    well_shaped (VDict d).

(** The outcome of a call goes by the keys: it returns when [present],
    and raises [KeyError] when not. *)
Definition by_keys {A} (r : result A) (present : bool) : Prop :=
  match r with
  | Ok _ => present = true
  | Err (KeyError _) => present = false
  | Err _ => False
  end.

(** *** Pages in the order the platform serves them

    [descending p]: the ids of [p] decrease strictly, as in a timeline
    read from the newest post down. *)
Fixpoint descending (p : list Status.t) : Prop :=
  match p with
  | [] => True
  | s :: p' =>
      Forall (fun s' => Status.id s' < Status.id s) p' /\ descending p'
  end.

(** A fetch method honours [max_id] when its pages are descending and
    hold no id above the [max_id] it was given. *)
Definition honours_max_id {World : Type}
    (method : World -> Z -> option Z -> World * list Status.t) : Prop :=
  forall w count max_id,
    descending (snd (method w count max_id))
    /\ forall bound,
         max_id = Some bound ->
         Forall (fun s => Status.id s <= bound) (snd (method w count max_id)).

(** A fetch method over a timeline that has a post for every id up to
    [w]: it hands out the [count] posts below the cursor. *)
Definition full_timeline (w : Z) (count : Z) (max_id : option Z)
    : Z * list Status.t :=
  (w, items (Z.to_nat count)
        match max_id with
        | None => w
        | Some bound => Z.min bound w
        end).

(** What a comprehension [[... for x in data[k]]] goes through. *)
Definition records (k : string) (data : value) : result (list value) :=
  (l <- getitem data k;; iter l)%result.

(** The column ['sender'] of a row. *)
Definition sender_column (row : Row.t) : value :=
  let 'Row.mk _ column _ _ _ _ _ _ := row in column.

(** Every key [Tweet.deserializer] looks for in a post payload. *)
Definition tweet_keys : list string :=
  ["full_text"; "truncated"; "extended_tweet"; "retweeted_status"; "text";
   "quoted_status_id"; "quoted_status"; "possibly_sensitive"]
  ++ tweet_required.

(** Two dicts bind the keys the deserializer looks for to the same
    values. *)
Definition same_bindings (a b : dict) : Prop :=
  forall k, In k tweet_keys -> lookup k a = lookup k b.

(** What [stream] does once it has the ids to follow: calls of [filter]
    with these ids, each one followed by the next call when it returned,
    by the two prints, a sleep of 15 seconds and the next call when it
    raised a [ProtocolError]; the run is over at the first call that
    raises something else. *)
Inductive retries {Exception} (is_protocol_error : Exception -> bool)
    (ids : list value)
    : list (event Exception) -> option (error Exception) -> Prop :=
| running : retries is_protocol_error ids [] None
| ended e :
    is_protocol_error e = false ->
    retries is_protocol_error ids [Filter ids] (Some (Library e))
| again done r :
    retries is_protocol_error ids done r ->
    retries is_protocol_error ids (Filter ids :: done) r
| retried e done r :
    is_protocol_error e = true ->
    retries is_protocol_error ids done r ->
    retries is_protocol_error ids
      (Filter ids :: Print (Text "error") :: Print (Exc e) :: Sleep 15
         :: done) r.

(** The number of calls of [filter]. *)
Definition filters {Exception} (done : list (event Exception)) : nat :=
  length (List.filter (fun ev => match ev with
                                 | Filter _ => true
                                 | _ => false
                                 end) done).

(** A connection that drops twice with a [ProtocolError] ([true]), ends
    normally once, and then fails for good; the world counts the calls. *)
Definition flaky_filter (follow : list value) (w : nat)
    : nat * outcome bool unit :=
  (S w,
   if Nat.ltb w 2 then Raised true
   else if Nat.eqb w 2 then Returned tt
   else Raised false).

Definition known_users (users : list string) (w : nat)
    : nat * outcome bool (list value) :=
  (w, Returned (map (fun u => VDict [("id_str", VStr u)]) users)).

(** The case of [pretty_print] a post falls under, as the specification
    names them. *)
Inductive branch : Type :=
| PlainReshare
| ReshareOfQuote
| DirectQuote
| PlainPost.

Definition branch_of (tweet : Tweet.t) : branch :=
  match Tweet.retweeted_status tweet with
  | Some rt => if is_tweet (Tweet.quoted_status rt) then ReshareOfQuote
               else PlainReshare
  | None => if is_tweet (Tweet.quoted_status tweet) then DirectQuote
            else PlainPost
  end.

(** Sample posts, as records. *)
Definition sample_author (handle : string) : TweetUser.t :=
  TweetUser.mk (VInt 7) (VStr "Sample") (VStr handle) VNone VNone VNone
    (VBool false) (VBool false) (VInt 3) (VInt 4) (VInt 0) (VInt 5) (VInt 6)
    (VStr "Mon Nov 29 21:18:15 +0000 2010") VNone
    (VStr "https://example.org/p.png") (VBool true) (VBool true) (VList []).

Definition sample_tweet (handle text : string)
    (quoted reshared : option Tweet.t) : Tweet.t :=
  Tweet.mk (VStr "Wed Oct 10 20:19:24 +0000 2018") (VInt 100) (VStr text)
    (VStr "web") VNone VNone VNone (sample_author handle) VNone VNone
    (VBool (is_tweet quoted)) VNone quoted (VInt 0) (VInt 0)
    (Entities.mk [] [] [] []) (VBool false) (VBool false) VNone (VStr "en")
    reshared.

Definition dave_post : Tweet.t := sample_tweet "dave" "orig" None None.

Definition carol_quote : Tweet.t :=
  sample_tweet "carol" "look" (Some dave_post) None.

Definition bob_reshare : Tweet.t :=
  sample_tweet "bob" "RT look" None (Some carol_quote).

(** * Properties *)

(** ** Presentation helpers *)

(** C6. [get_quote] follows [retweeted_status] before anything else and
    looks at [quoted_status] only on a post that is not a reshare; so its
    answer is the quote of the post at the end of the reshare chain, or
    [(None, None)] when that post quotes nothing, and two reshares of the
    same post get the same answer whatever their own [quoted_status]. *)
Theorem get_quote_follows_reshares (tweet : Tweet.t) :
  get_quote tweet =
    match Tweet.retweeted_status tweet with
    | Some rt => get_quote rt
    | None =>
        match Tweet.quoted_status tweet with
        | None => (VNone, VNone)
        | Some q => (sender q, Tweet.full_text q)
        end
    end
  /\ get_quote tweet =
       match Tweet.quoted_status (original tweet) with
       | None => (VNone, VNone)
       | Some q => (sender q, Tweet.full_text q)
       end
  /\ (forall rt q,
        Tweet.retweeted_status tweet = Some rt ->
        Tweet.retweeted_status rt = None ->
        Tweet.quoted_status rt = Some q ->
        get_quote tweet = (sender q, Tweet.full_text q))
  /\ (forall other,
        Tweet.retweeted_status other = Tweet.retweeted_status tweet ->
        Tweet.retweeted_status tweet <> None ->
        get_quote other = get_quote tweet).
Proof.
  split; [destruct tweet; reflexivity|].
  split.
  - revert tweet.
    fix IH 1.
    intros [? ? ? ? ? ? ? ? ? ? ? ? ? ? ? ? ? ? ? ? [rt|]]; simpl.
    + apply IH.
    + reflexivity.
  - split.
    + intros rt q Hrt Hnone Hq.
      destruct tweet; simpl in *; subst.
      destruct rt; simpl in *; subst. reflexivity.
    + intros other Hsame Hsome.
      destruct tweet, other; simpl in *; subst.
      match goal with |- context [match ?o with _ => _ end] => destruct o end;
        [reflexivity | congruence].
Qed.

Lemma get_quote_follows_reshares_witness :
  get_quote bob_reshare = (VStr "dave", VStr "orig").
Proof.
  exact (proj1 (proj2 (proj2 (get_quote_follows_reshares bob_reshare)))
           carol_quote dave_post eq_refl eq_refl eq_refl).
Defined.

(** C7. [pretty_print] writes exactly one of its four texts, the one of
    the case the post falls under: (a) a reshare whose original quotes
    nothing, (b) a reshare whose original quotes a post, (c) a post that
    is no reshare and quotes a post, (d) any other post. *)
Theorem pretty_print_branch (str_of : value -> string) (tweet : Tweet.t) :
  let f := fmt str_of in
  match branch_of tweet with
  | PlainReshare =>
      exists rt,
        Tweet.retweeted_status tweet = Some rt
        /\ Tweet.quoted_status rt = None
        /\ pretty_print str_of tweet =
             text_reshare (f (sender tweet)) (f (sender rt))
               (f (Tweet.full_text rt))
  | ReshareOfQuote =>
      exists rt q,
        Tweet.retweeted_status tweet = Some rt
        /\ Tweet.quoted_status rt = Some q
        /\ pretty_print str_of tweet =
             text_reshare_of_quote (f (sender tweet)) (f (sender rt))
               (f (sender q)) (f (Tweet.full_text rt))
               (f (Tweet.full_text q))
  | DirectQuote =>
      exists q,
        Tweet.retweeted_status tweet = None
        /\ Tweet.quoted_status tweet = Some q
        /\ pretty_print str_of tweet =
             text_quote (f (sender tweet)) (f (sender q))
               (f (Tweet.full_text tweet)) (f (Tweet.full_text q))
  | PlainPost =>
      Tweet.retweeted_status tweet = None
      /\ Tweet.quoted_status tweet = None
      /\ pretty_print str_of tweet =
           text_plain (f (sender tweet)) (f (Tweet.full_text tweet))
  end.
Proof.
  intros f. unfold branch_of, pretty_print.
  destruct (Tweet.retweeted_status tweet) as [rt|].
  - destruct (Tweet.quoted_status rt) as [q|] eqn:Hq; simpl.
    + exists rt, q. split; [|split]; trivial.
    + exists rt. split; [|split]; trivial.
  - destruct (Tweet.quoted_status tweet) as [q|]; simpl.
    + exists q. split; [|split]; reflexivity.
    + split; [|split]; reflexivity.
Qed.

(** C10. The [is_quote] cell of a row is [True] when the first component
    of [get_quote] is true, and [None] otherwise: [False] never stands
    there, not even for a post with no reshare and no quote, whereas the
    [is_retweet] cell is always [True] or [False]. *)
Theorem is_quote_true_or_none (tweets : list Tweet.t) :
  Forall2
    (fun tweet row =>
       (Row.is_quote row = VBool true
          /\ truthy (fst (get_quote tweet)) = true
        \/ Row.is_quote row = VNone
          /\ truthy (fst (get_quote tweet)) = false)
       /\ Row.is_quote row <> VBool false
       /\ (Row.is_retweet row = VBool true
             /\ Tweet.retweeted_status tweet <> None
           \/ Row.is_retweet row = VBool false
             /\ Tweet.retweeted_status tweet = None)
       /\ (branch_of tweet = PlainPost ->
           Row.is_quote row = VNone /\ Row.is_retweet row = VBool false))
    tweets (tweets_to_df tweets).
Proof.
  induction tweets as [|tweet tweets IH]; simpl; constructor; [|exact IH].
  unfold row_of; simpl.
  split; [|split; [|split]].
  - destruct (truthy (fst (get_quote tweet))); [left | right]; split;
      reflexivity.
  - destruct (truthy (fst (get_quote tweet))); discriminate.
  - destruct (Tweet.retweeted_status tweet); simpl;
      [left | right]; split; congruence.
  - unfold branch_of. destruct tweet; simpl.
    destruct retweeted_status as [rt|].
    + destruct (Tweet.quoted_status rt); simpl; discriminate.
    + destruct quoted_status; simpl; [discriminate|].
      intros _. split; reflexivity.
Qed.

Lemma is_quote_true_or_none_witness :
  Row.is_quote (row_of dave_post) = VNone
  /\ Row.is_retweet (row_of dave_post) = VBool false.
Proof.
  pose proof (is_quote_true_or_none [dave_post]) as H.
  apply Forall2_cons_iff in H. destruct H as [[_ [_ [_ Hplain]]] _].
  exact (Hplain eq_refl).
Defined.

(** ** [DataGetter] *)

(** C8. [verify_authentication] returns a bool whatever the credential
    check does: [True] when the check returns a value that is true, and
    [False] when it returns any other value or raises. *)
Theorem verify_authentication_never_raises
    (World Exception : Type)
    (verify_credentials : World -> World * outcome Exception value)
    (w : World) :
  verify_authentication World Exception verify_credentials w =
    (fst (verify_credentials w),
     match snd (verify_credentials w) with
     | Returned v => truthy v
     | Raised _ => false
     end)
  /\ (snd (verify_authentication World Exception verify_credentials w) = true
      <-> exists v, snd (verify_credentials w) = Returned v
                    /\ truthy v = true)
  /\ (forall e, snd (verify_credentials w) = Raised e ->
      snd (verify_authentication World Exception verify_credentials w)
        = false).
Proof.
  unfold verify_authentication.
  destruct (verify_credentials w) as [w' [v|e]]; simpl.
  - split; [destruct (truthy v); reflexivity|].
    split; [|discriminate].
    split.
    + intros H. exists v. split; [reflexivity|].
      destruct (truthy v); [reflexivity | discriminate].
    + intros [v' [Hv Ht]]. injection Hv as <-. rewrite Ht. reflexivity.
  - split; [reflexivity|]. split; [|reflexivity].
    split; [discriminate|]. intros [v [Hv _]]. discriminate.
Qed.

Lemma verify_authentication_never_raises_witness :
  snd (verify_authentication unit string
         (fun w => (w, Raised "401 Unauthorized")) tt) = false
  /\ snd (verify_authentication unit string
            (fun w => (w, Returned (sample_user "alice"))) tt) = true.
Proof.
  split.
  - exact (proj2 (proj2 (verify_authentication_never_raises unit string
                           (fun w => (w, Raised "401 Unauthorized")) tt))
             "401 Unauthorized" eq_refl).
  - apply (proj1 (proj2 (verify_authentication_never_raises unit string
                           (fun w => (w, Returned (sample_user "alice")))
                           tt))).
    exists (sample_user "alice"). split; reflexivity.
Defined.

(** *** The calls of [collect_tweets] *)

Section Calls.

Variable World : Type.
Variable method : World -> Z -> option Z -> World * list Status.t.

Local Abbreviation run :=
  (collect_loop (World * list fetch) (recording method)).

(** Whatever the fuel, the calls recorded by a run of the loop form a
    [chain], and the list it returns is made of their pages. *)
Lemma collect_loop_chain (fuel : nat) :
  forall w log cnt oldest_id result,
  exists fs,
    snd (fst (run fuel (w, log) cnt oldest_id result)) = (log ++ fs)%list
    /\ chain (returned (snd (run fuel (w, log) cnt oldest_id result)))
         cnt oldest_id fs
    /\ (forall res,
          snd (run fuel (w, log) cnt oldest_id result) = Some res ->
          res = (result ++ concat (map page fs))%list)
    /\ Forall (fun f => exists w0,
                 snd (method w0 (asked f) (cursor f)) = page f) fs.
Proof.
  induction fuel as [|fuel IH]; intros w log cnt oldest_id result.
  - exists []. simpl. rewrite app_nil_r.
    repeat split; intros; try discriminate. constructor.
  - simpl. destruct (cnt =? 0) eqn:Hcnt.
    + exists []. simpl. rewrite !app_nil_r.
      apply Z.eqb_eq in Hcnt.
      repeat split; intros; try congruence. constructor.
    + apply Z.eqb_neq in Hcnt.
      set (max_id := option_map (fun oldest => oldest - 1) oldest_id).
      assert (Hcall :
        match oldest_id with
        | None => recording method (w, log) (Z.min MAX_COUNT cnt) None
        | Some oldest =>
            recording method (w, log) (Z.min MAX_COUNT cnt)
              (Some (oldest - 1))
        end = recording method (w, log) (Z.min MAX_COUNT cnt) max_id)
        by (destruct oldest_id; reflexivity).
      rewrite Hcall. clear Hcall.
      destruct (method w (Z.min MAX_COUNT cnt) max_id) as [w' p] eqn:Hm.
      set (f := mk_fetch (Z.min MAX_COUNT cnt) max_id p).
      assert (Hrec : recording method (w, log) (Z.min MAX_COUNT cnt) max_id
                     = ((w', (log ++ [f])%list), p))
        by (unfold recording; simpl; rewrite Hm; reflexivity).
      rewrite Hrec. clear Hrec.
      destruct p as [|first others].
      * exists [f]. simpl.
        split; [reflexivity|]. split; [repeat split; assumption|].
        split.
        -- intros res H. injection H as <-. rewrite app_nil_r. reflexivity.
        -- constructor; [|constructor].
           exists w. simpl. rewrite Hm. reflexivity.
      * destruct (IH w' (log ++ [f])%list
                    (cnt - Z.of_nat (length (first :: others)))
                    (Some (Status.id (last others first)))
                    (result ++ first :: others)%list)
          as [fs [Hlog [Hchain [Hres Hfrom]]]].
        exists (f :: fs).
        split; [rewrite Hlog, <- app_assoc; reflexivity|].
        split; [|split].
        -- simpl chain. repeat split; try assumption.
        -- intros res H. rewrite (Hres res H).
           simpl. rewrite <- app_assoc. reflexivity.
        -- constructor; [|exact Hfrom].
           exists w. simpl. rewrite Hm. reflexivity.
Qed.

(** Recording the calls changes nothing to what the loop does. *)
Lemma recording_transparent (fuel : nat) :
  forall w log cnt oldest_id result,
    fst (fst (run fuel (w, log) cnt oldest_id result))
      = fst (collect_loop World method fuel w cnt oldest_id result)
    /\ snd (run fuel (w, log) cnt oldest_id result)
       = snd (collect_loop World method fuel w cnt oldest_id result).
Proof.
  induction fuel as [|fuel IH]; intros w log cnt oldest_id result; simpl.
  - split; reflexivity.
  - destruct (cnt =? 0); [split; reflexivity|].
    destruct oldest_id as [oldest|]; unfold recording; simpl;
      match goal with
      | |- context [method ?a ?b ?c] => destruct (method a b c) as [w' p]
      end;
      (destruct p as [|first others]; [split; reflexivity | apply IH]).
Qed.

(** The calls made from the start of [collect_tweets]. *)
Lemma calls_chain (fuel : nat) (w : World) (count : Z) :
  chain (returned (snd (collect_tweets World method fuel w count)))
    count None (calls method fuel w count)
  /\ (forall res,
        snd (collect_tweets World method fuel w count) = Some res ->
        res = concat (map page (calls method fuel w count)))
  /\ Forall (fun f => exists w0,
               snd (method w0 (asked f) (cursor f)) = page f)
       (calls method fuel w count).
Proof.
  unfold calls, collect_tweets.
  destruct (collect_loop_chain fuel w [] count None [])
    as [fs [Hlog [Hchain [Hres Hfrom]]]].
  destruct (recording_transparent fuel w [] count None []) as [_ Hsame].
  rewrite Hlog. rewrite <- Hsame. repeat split; assumption.
Qed.

End Calls.

(** *** What a chain of calls says *)


Lemma chain_asked (b : bool) (fs : list fetch) :
  forall cnt oldest_id i f,
    chain b cnt oldest_id fs ->
    nth_error fs i = Some f ->
    asked f = Z.min MAX_COUNT (cnt - total (firstn i fs)).
Proof.
  induction fs as [|g fs IH]; intros cnt oldest_id i f Hchain Hnth.
  - destruct i; discriminate.
  - destruct Hchain as [_ [Hasked [_ Hrest]]].
    destruct i as [|i]; simpl in *.
    + injection Hnth as <-. rewrite Z.sub_0_r. exact Hasked.
    + destruct (page g) as [|first others] eqn:Hpage.
      * destruct Hrest as [-> _]. destruct i; discriminate.
      * rewrite (IH _ _ _ _ Hrest Hnth). f_equal. simpl length. lia.
Qed.

Lemma chain_cursor (b : bool) (fs : list fetch) :
  forall cnt oldest_id,
    chain b cnt oldest_id fs ->
    (forall f, nth_error fs 0 = Some f ->
       cursor f = option_map (fun oldest => oldest - 1) oldest_id)
    /\ (forall i prev next,
          nth_error fs i = Some prev ->
          nth_error fs (S i) = Some next ->
          exists oldest,
            last_id (page prev) = Some oldest
            /\ cursor next = Some (oldest - 1)).
Proof.
  induction fs as [|g fs IH]; intros cnt oldest_id Hchain.
  - split; intros; [discriminate | destruct i; discriminate].
  - destruct Hchain as [_ [_ [Hcursor Hrest]]].
    split.
    + intros f Hf. injection Hf as <-. exact Hcursor.
    + intros i prev next Hprev Hnext. simpl in Hnext.
      destruct (page g) as [|first others] eqn:Hpage.
      * destruct Hrest as [-> _]. destruct i; discriminate.
      * destruct (IH _ _ Hrest) as [Hfirst Hlater].
        destruct i as [|i]; simpl in Hprev.
        -- injection Hprev as <-. rewrite Hpage.
           exists (Status.id (last others first)).
           split; [reflexivity|].
           rewrite (Hfirst next Hnext). reflexivity.
        -- exact (Hlater i prev next Hprev Hnext).
Qed.

Lemma chain_empty_page_ends (b : bool) (fs : list fetch) :
  forall cnt oldest_id i f,
    chain b cnt oldest_id fs ->
    nth_error fs i = Some f ->
    page f = [] ->
    length fs = S i.
Proof.
  induction fs as [|g fs IH]; intros cnt oldest_id i f Hchain Hnth Hpage.
  - destruct i; discriminate.
  - destruct Hchain as [_ [_ [_ Hrest]]].
    destruct i as [|i]; simpl in Hnth.
    + injection Hnth as ->. rewrite Hpage in Hrest.
      destruct Hrest as [-> _]. reflexivity.
    + destruct (page g) as [|first others].
      * destruct Hrest as [-> _]. destruct i; discriminate.
      * simpl. f_equal. exact (IH _ _ _ _ Hrest Hnth Hpage).
Qed.

(** When no page is longer than what was asked for, the calls of a run
    entered with [0 <= cnt] are made while items are still wanted and no
    page came back empty, and a run that returned did so because the
    count was reached or the last page was empty. *)
Lemma chain_within_count (b : bool) (fs : list fetch) :
  forall cnt oldest_id,
    0 <= cnt ->
    Forall (fun f => 0 < asked f -> Z.of_nat (length (page f)) <= asked f)
      fs ->
    chain b cnt oldest_id fs ->
    total fs <= cnt
    /\ (forall i f, nth_error fs i = Some f ->
          total (firstn i fs) < cnt
          /\ Forall (fun g => page g <> []) (firstn i fs))
    /\ (b = true ->
        total fs = cnt
        \/ exists f, nth_error fs (pred (length fs)) = Some f
                     /\ page f = []).
Proof.
  induction fs as [|g fs IH]; intros cnt oldest_id Hcnt Hbound Hchain.
  - simpl in *. split; [lia|]. split.
    + intros i f H. destruct i; discriminate.
    + intros Hb. left. symmetry. exact (Hchain Hb).
  - destruct Hchain as [Hne [Hasked [_ Hrest]]].
    inversion Hbound as [|? ? Hg Hfs]; subst.
    assert (Hpos : 0 < asked g) by (rewrite Hasked; unfold MAX_COUNT; lia).
    specialize (Hg Hpos).
    assert (Hle : Z.of_nat (length (page g)) <= cnt)
      by (rewrite Hasked in Hg; lia).
    destruct (page g) as [|first others] eqn:Hpage.
    + destruct Hrest as [-> Hb]. simpl. rewrite Hpage. simpl.
      split; [lia|]. split.
      * intros i f H. destruct i as [|[|i]]; try discriminate.
        simpl. split; [lia | constructor].
      * intros _. right. exists g. split; [reflexivity | exact Hpage].
    + unfold last_id in Hrest.
      remember (Z.of_nat (length (first :: others))) as n eqn:Hn.
      assert (Hn1 : 1 <= n) by (subst n; simpl length; lia).
      assert (Hcnt' : 0 <= cnt - n) by lia.
      destruct (IH _ _ Hcnt' Hfs Hrest) as [Htot [Hcalls Hend]].
      simpl total. rewrite Hpage, <- Hn.
      split; [lia|]. split.
      * intros i f H. destruct i as [|i].
        -- simpl. split; [lia | constructor].
        -- destruct (Hcalls i f H) as [Hlt Hall].
           simpl firstn. simpl total. rewrite Hpage, <- Hn.
           split; [lia|].
           constructor; [rewrite Hpage; discriminate | exact Hall].
      * intros Hb. destruct (Hend Hb) as [Heq | [f [Hf Hempty]]].
        -- left. lia.
        -- right. exists f. split; [|exact Hempty].
           destruct fs as [|h fs']; [discriminate | exact Hf].
Qed.

(** *** Termination and the two claims on [collect_tweets] *)

(** With a fetch method that respects [count], the loop returns within
    [cnt + 1] iterations. *)
Lemma collect_loop_returns (World : Type)
    (method : World -> Z -> option Z -> World * list Status.t) :
  respects_count method ->
  forall fuel w cnt oldest_id result,
    0 <= cnt ->
    (Z.to_nat cnt < fuel)%nat ->
    returned (snd (collect_loop World method fuel w cnt oldest_id result))
      = true.
Proof.
  intros Hresp.
  induction fuel as [|fuel IH]; intros w cnt oldest_id result Hcnt Hfuel;
    [lia|].
  simpl. destruct (cnt =? 0) eqn:Hz; [reflexivity|].
  apply Z.eqb_neq in Hz.
  assert (Hstep : forall max_id,
    returned
      (snd (let (w', new_tweets) := method w (Z.min MAX_COUNT cnt) max_id in
            match new_tweets with
            | [] => (w', Some result)
            | first :: others =>
                collect_loop World method fuel w'
                  (cnt - Z.of_nat (length new_tweets))
                  (Some (Status.id (last others first)))
                  (result ++ new_tweets)%list
            end)) = true).
  { intros max_id.
    pose proof (Hresp w (Z.min MAX_COUNT cnt) max_id) as Hlen.
    destruct (method w (Z.min MAX_COUNT cnt) max_id) as [w' p].
    destruct p as [|first others]; [reflexivity|].
    simpl snd in Hlen.
    remember (Z.of_nat (length (first :: others))) as n eqn:Hn.
    assert (1 <= n) by (subst n; simpl length; lia).
    assert (n <= Z.min MAX_COUNT cnt)
      by (apply Hlen; unfold MAX_COUNT; lia).
    apply IH; lia. }
  destruct oldest_id; apply Hstep.
Qed.

(** C3. In every run of [collect_tweets], the first call passes no
    [max_id], and each later call passes the id of the last item of the
    page before it, minus one. *)
Theorem collect_tweets_cursor (World : Type)
    (method : World -> Z -> option Z -> World * list Status.t)
    (fuel : nat) (w : World) (count : Z) :
  (forall f, nth_error (calls method fuel w count) 0 = Some f ->
     cursor f = None)
  /\ (forall i prev next,
        nth_error (calls method fuel w count) i = Some prev ->
        nth_error (calls method fuel w count) (S i) = Some next ->
        exists oldest,
          last_id (page prev) = Some oldest
          /\ cursor next = Some (oldest - 1)).
Proof.
  destruct (calls_chain World method fuel w count) as [Hchain _].
  exact (chain_cursor _ _ _ _ Hchain).
Qed.

Lemma collect_tweets_cursor_witness :
  exists prev next oldest,
    nth_error (calls scripted 10 [items 2 50; items 2 40; items 2 30] 5) 0
      = Some prev
    /\ nth_error (calls scripted 10 [items 2 50; items 2 40; items 2 30] 5) 1
       = Some next
    /\ last_id (page prev) = Some oldest
    /\ oldest = 49
    /\ cursor next = Some (oldest - 1).
Proof.
  destruct (proj2 (collect_tweets_cursor _ scripted 10
                     [items 2 50; items 2 40; items 2 30] 5)
              0%nat _ _ eq_refl eq_refl) as [oldest [Hlast Hcursor]].
  eexists. eexists. exists oldest.
  split; [reflexivity|]. split; [reflexivity|].
  split; [exact Hlast|]. split; [|exact Hcursor].
  vm_compute in Hlast. congruence.
Defined.

(** One iteration of the recorded loop that gets a page with items, and
    the iteration that finds nothing left to collect. *)
Lemma recorded_step (World : Type)
    (method : World -> Z -> option Z -> World * list Status.t)
    (fuel : nat) (w w' : World) (log : list fetch) (cnt : Z)
    (oldest_id : option Z) (result p : list Status.t) (oldest : Z) :
  cnt <> 0 ->
  method w (Z.min MAX_COUNT cnt)
    (option_map (fun o => o - 1) oldest_id) = (w', p) ->
  last_id p = Some oldest ->
  collect_loop (World * list fetch) (recording method) (S fuel) (w, log)
    cnt oldest_id result
  = collect_loop (World * list fetch) (recording method) fuel
      (w', (log ++ [mk_fetch (Z.min MAX_COUNT cnt)
                      (option_map (fun o => o - 1) oldest_id) p])%list)
      (cnt - Z.of_nat (length p)) (Some oldest) (result ++ p)%list.
Proof.
  intros Hcnt Hm Hlast. simpl.
  apply Z.eqb_neq in Hcnt. rewrite Hcnt.
  assert (Hrec :
    match oldest_id with
    | None => recording method (w, log) (Z.min MAX_COUNT cnt) None
    | Some o => recording method (w, log) (Z.min MAX_COUNT cnt) (Some (o - 1))
    end
    = ((w', (log ++ [mk_fetch (Z.min MAX_COUNT cnt)
                       (option_map (fun o => o - 1) oldest_id) p])%list), p)).
  { destruct oldest_id; unfold recording; simpl in *; rewrite Hm;
      reflexivity. }
  rewrite Hrec.
  destruct p as [|first others]; [discriminate|].
  injection Hlast as <-. reflexivity.
Qed.

Lemma recorded_done (World : Type)
    (method : World -> Z -> option Z -> World * list Status.t)
    (fuel : nat) (st : World * list fetch) (oldest_id : option Z)
    (result : list Status.t) :
  collect_loop (World * list fetch) (recording method) (S fuel) st
    0 oldest_id result
  = (st, Some result).
Proof. reflexivity. Qed.

(** C2, as the code has it.  In every run each call asks for
    [min(200, cnt)] items, [cnt] being the requested count less the items
    received, and a call that gets an empty page is the last.  When the
    requested count is not negative and the fetch method never returns
    more items than it was asked for, the loop returns, no call is made
    once the requested total is reached or a page came back empty, and
    at the end the total is reached or the last page was empty.  With a
    count of 450 and pages of 200, 200 and 50 items there are exactly
    three calls. *)
Theorem collect_tweets_calls (World : Type)
    (method : World -> Z -> option Z -> World * list Status.t)
    (fuel : nat) (w : World) (count : Z) :
  (forall i f,
     nth_error (calls method fuel w count) i = Some f ->
     asked f
       = Z.min MAX_COUNT
           (count - total (firstn i (calls method fuel w count))))
  /\ (forall i f,
        nth_error (calls method fuel w count) i = Some f ->
        page f = [] ->
        length (calls method fuel w count) = S i)
  /\ (0 <= count ->
      respects_count method ->
      (Z.to_nat count < fuel)%nat ->
      (exists result,
         snd (collect_tweets World method fuel w count) = Some result
         /\ result = concat (map page (calls method fuel w count)))
      /\ stops_when_satisfied count (calls method fuel w count)
      /\ (total (calls method fuel w count) = count
          \/ exists f,
               nth_error (calls method fuel w count)
                 (pred (length (calls method fuel w count))) = Some f
               /\ page f = []))
  /\ (forall w1 w2 w3 p1 p2 p3 l1 l2,
        count = 450 ->
        (3 < fuel)%nat ->
        method w 200 None = (w1, p1) ->
        length p1 = 200%nat -> last_id p1 = Some l1 ->
        method w1 200 (Some (l1 - 1)) = (w2, p2) ->
        length p2 = 200%nat -> last_id p2 = Some l2 ->
        method w2 50 (Some (l2 - 1)) = (w3, p3) ->
        length p3 = 50%nat ->
        calls method fuel w count
          = [mk_fetch 200 None p1; mk_fetch 200 (Some (l1 - 1)) p2;
             mk_fetch 50 (Some (l2 - 1)) p3]
        /\ collect_tweets World method fuel w count
           = (w3, Some (p1 ++ p2 ++ p3)%list)).
Proof.
  destruct (calls_chain World method fuel w count)
    as [Hchain [Hres Hfrom]].
  split; [intros i f; exact (chain_asked _ _ _ _ i f Hchain)|].
  split; [intros i f; exact (chain_empty_page_ends _ _ _ _ i f Hchain)|].
  split.
  - intros Hcount Hresp Hfuel.
    pose proof (collect_loop_returns World method Hresp fuel w count None []
                  Hcount Hfuel) as Hret.
    fold (collect_tweets World method fuel w count) in Hret.
    rewrite Hret in Hchain.
    assert (Hbound :
      Forall (fun f => 0 < asked f ->
                       Z.of_nat (length (page f)) <= asked f)
        (calls method fuel w count)).
    { eapply Forall_impl; [|exact Hfrom].
      intros f [w0 Hpage] Hpos. rewrite <- Hpage.
      apply Hresp. exact Hpos. }
    destruct (chain_within_count _ _ _ _ Hcount Hbound Hchain)
      as [_ [Hcalls Hend]].
    split; [|split].
    + destruct (snd (collect_tweets World method fuel w count))
        as [result|]; [|discriminate].
      exists result. split; [reflexivity | apply Hres; reflexivity].
    + exact Hcalls.
    + apply Hend. reflexivity.
  - intros w1 w2 w3 p1 p2 p3 l1 l2 -> Hfuel H1 Hn1 Hl1 H2 Hn2 Hl2 H3 Hn3.
    destruct fuel as [|[|[|[|fuel]]]]; try lia.
    assert (Hl3 : exists l3, last_id p3 = Some l3)
      by (destruct p3; [discriminate | eexists; reflexivity]).
    destruct Hl3 as [l3 Hl3].
    assert (Hrun :
      collect_tweets (World * list fetch) (recording method)
        (S (S (S (S fuel)))) (w, []) 450
      = ((w3, [mk_fetch 200 None p1; mk_fetch 200 (Some (l1 - 1)) p2;
               mk_fetch 50 (Some (l2 - 1)) p3]),
         Some (p1 ++ p2 ++ p3)%list)).
    { unfold collect_tweets.
      rewrite (recorded_step World method _ w w1 [] 450 None [] p1 l1
                 ltac:(discriminate) H1 Hl1).
      rewrite Hn1. change (450 - Z.of_nat 200) with 250.
      rewrite (recorded_step World method _ w1 w2 _ 250 (Some l1) _ p2 l2
                 ltac:(discriminate) H2 Hl2).
      rewrite Hn2. change (250 - Z.of_nat 200) with 50.
      rewrite (recorded_step World method _ w2 w3 _ 50 (Some l2) _ p3 l3
                 ltac:(discriminate) H3 Hl3).
      rewrite Hn3. change (50 - Z.of_nat 50) with 0.
      rewrite recorded_done. simpl. rewrite <- app_assoc. reflexivity. }
    split.
    + unfold calls. rewrite Hrun. reflexivity.
    + destruct (recording_transparent World method (S (S (S (S fuel))))
                  w [] 450 None []) as [Hw Hr].
      fold (collect_tweets (World * list fetch) (recording method)
              (S (S (S (S fuel)))) (w, []) 450) in Hw, Hr.
      fold (collect_tweets World method (S (S (S (S fuel)))) w 450)
        in Hw, Hr.
      rewrite Hrun in Hw, Hr. simpl in Hw, Hr.
      destruct (collect_tweets World method (S (S (S (S fuel)))) w 450).
      simpl in *. congruence.
Qed.

Lemma timeline_respects_count : respects_count timeline.
Proof.
  intros w count max_id Hpos. unfold timeline. simpl.
  pose proof (firstn_le_length (Z.to_nat count) w).
  rewrite length_firstn. lia.
Qed.

Lemma collect_tweets_calls_witness :
  stops_when_satisfied 450 (calls timeline 451 (items 460 1000) 450)
  /\ map (fun f => (asked f, cursor f, length (page f)))
       (calls timeline 451 (items 460 1000) 450)
     = [(200, None, 200%nat); (200, Some 800, 200%nat);
        (50, Some 600, 50%nat)].
Proof.
  pose proof (collect_tweets_calls _ timeline 451 (items 460 1000) 450)
    as [_ [_ [Hstops Hexample]]].
  split.
  - apply Hstops; [lia | exact timeline_respects_count | lia].
  - edestruct Hexample as [Hlog _];
      [reflexivity | lia
       | vm_compute; reflexivity | reflexivity | vm_compute; reflexivity
       | vm_compute; reflexivity | reflexivity | vm_compute; reflexivity
       | vm_compute; reflexivity | reflexivity |].
    rewrite Hlog. reflexivity.
Defined.

(** The claim C2 as it is written fails when a page holds more items than
    were asked for: asked for one item, the loop gets two, and goes on
    asking (for -1 item, then for -2) until a page comes back empty. *)
Lemma collect_tweets_overshoot :
  map (fun f => (asked f, length (page f)))
    (calls scripted 10 [items 2 50; items 1 48] 1)
  = [(1, 2%nat); (-1, 1%nat); (-2, 0%nat)]
  /\ ~ stops_when_satisfied 1 (calls scripted 10 [items 2 50; items 1 48] 1).
Proof.
  split; [reflexivity|].
  intros H.
  destruct (H 1%nat _ eq_refl) as [Hlt _].
  vm_compute in Hlt. discriminate.
Qed.

(** ** Dicts and computations over [data] *)

Lemma lookup_set_same (k : string) (v : value) (d : dict) :
  lookup k (set k v d) = Some v.
Proof.
  induction d as [|[k' v'] d IH]; simpl.
  - rewrite String.eqb_refl. reflexivity.
  - destruct (String.eqb k k') eqn:E; simpl; rewrite E;
      [reflexivity | exact IH].
Qed.

Lemma lookup_set_other (k k' : string) (v : value) (d : dict) :
  String.eqb k k' = false -> lookup k' (set k v d) = lookup k' d.
Proof.
  intros Hne.
  induction d as [|[k0 v0] d IH]; simpl.
  - rewrite String.eqb_sym, Hne. reflexivity.
  - destruct (String.eqb k k0) eqn:E; simpl.
    + apply String.eqb_eq in E. subst k0.
      rewrite String.eqb_sym, Hne. reflexivity.
    + destruct (String.eqb k' k0); [reflexivity | exact IH].
Qed.

Lemma set_lookup_same (k : string) (v : value) (d : dict) :
  lookup k d = Some v -> set k v d = d.
Proof.
  induction d as [|[k' v'] d IH]; simpl; [discriminate|].
  destruct (String.eqb k k') eqn:E.
  - intros H. injection H as ->. reflexivity.
  - intros H. rewrite (IH H). reflexivity.
Qed.


Lemma has_true (k : string) (d : dict) :
  has k d = true <-> exists v, lookup k d = Some v.
Proof.
  unfold has. destruct (lookup k d) as [v|]; split.
  - intros _. exists v. reflexivity.
  - reflexivity.
  - discriminate.
  - intros [v H]. discriminate.
Qed.

Lemma has_false (k : string) (d : dict) :
  has k d = false <-> lookup k d = None.
Proof.
  unfold has. destruct (lookup k d); split; congruence.
Qed.

(** How a computation that ended normally, or by an exception, went. *)
Lemma bindM_ok {A B} (m : M A) (f : A -> M B) (d d' : dict) (b : B) :
  bindM m f d = (d', Ok b) ->
  exists a d1, m d = (d1, Ok a) /\ f a d1 = (d', Ok b).
Proof.
  unfold bindM. destruct (m d) as [d1 [a|e]]; intros H.
  - exists a, d1. split; [reflexivity | exact H].
  - discriminate.
Qed.

Lemma bindM_err {A B} (m : M A) (f : A -> M B) (d d' : dict) (e : exn) :
  bindM m f d = (d', Err e) ->
  m d = (d', Err e)
  \/ exists a d1, m d = (d1, Ok a) /\ f a d1 = (d', Err e).
Proof.
  unfold bindM. destruct (m d) as [d1 [a|e']]; intros H.
  - right. exists a, d1. split; [reflexivity | exact H].
  - left. injection H as -> ->. reflexivity.
Qed.



Lemma read_ok (k : string) (d d' : dict) (v : value) :
  read k d = (d', Ok v) -> d' = d /\ lookup k d = Some v.
Proof.
  unfold read, getitem. destruct (lookup k d); intros H;
    [injection H as <- <-; split; reflexivity | discriminate].
Qed.

Lemma read_err (k : string) (d d' : dict) (e : exn) :
  read k d = (d', Err e) ->
  d' = d /\ lookup k d = None /\ e = KeyError k.
Proof.
  unfold read, getitem. destruct (lookup k d); intros H;
    [discriminate | injection H as <- <-; repeat split].
Qed.



(** A nested call changes at most the binding of its key. *)
Lemma nested_other (call : string -> dict -> option (value * result Tweet.t))
    (k k' : string) (d d' : dict) (r : result (option Tweet.t)) :
  Tweet.nested call k d = (d', r) ->
  String.eqb k k' = false ->
  lookup k' d' = lookup k' d.
Proof.
  unfold Tweet.nested. intros H Hne.
  destruct (call k d) as [[v' [tw|e]]|]; injection H as <- <-;
    try apply lookup_set_other; trivial.
Qed.

(** ** [Tweet.deserializer] *)

Ltac use_lookups :=
  repeat match goal with
         | E : lookup ?k ?y = _ |- context [lookup ?k ?y] => rewrite E
         end.

Ltac crunch :=
  repeat (cbv beta iota; simpl andb; use_lookups;
          first
            [ reflexivity
            | match goal with
              | |- context [truthy ?x] => destruct (truthy x)
              | |- context [match lookup ?k ?y with _ => _ end] =>
                  destruct (lookup k y) eqn:?
              | |- context [match contains ?k ?y with _ => _ end] =>
                  destruct (contains k y) as [[|]|]
              | |- context [match ?x with _ => _ end] => is_var x; destruct x
              end ]).

(** Lines 333-339 leave [data] alone when it has ['full_text'] or when
    they raise, and otherwise bind ['full_text'] to [text_source]. *)
Lemma resolve_full_text_eq (d : dict) :
  Tweet.resolve_full_text d =
    if has "full_text" d then (d, Ok tt)
    else match text_source d with
         | Ok v => (set "full_text" v d, Ok tt)
         | Err e => (d, Err e)
         end.
Proof.
  unfold Tweet.resolve_full_text, text_source, reshare_text_source, bindM,
    bind, test_in, read, lift, assign, ret, getitem.
  destruct (has "full_text" d); [reflexivity|].
  unfold has. crunch.
Qed.

Lemma resolve_full_text_other (d d' : dict) (r : result unit) (k : string) :
  Tweet.resolve_full_text d = (d', r) ->
  String.eqb "full_text" k = false ->
  lookup k d' = lookup k d.
Proof.
  rewrite resolve_full_text_eq. intros H Hne.
  destruct (has "full_text" d); [injection H as <- _; reflexivity|].
  destruct (text_source d); injection H as <- _;
    [apply lookup_set_other; exact Hne | reflexivity].
Qed.

(** A pre-existing ['full_text'] is never overwritten, and after lines
    333-339 ran to their end the key is there. *)
Lemma resolve_full_text_ok (d d' : dict) :
  Tweet.resolve_full_text d = (d', Ok tt) ->
  (has "full_text" d = true /\ d' = d)
  \/ (has "full_text" d = false
      /\ exists v, text_source d = Ok v /\ d' = set "full_text" v d).
Proof.
  rewrite resolve_full_text_eq.
  destruct (has "full_text" d); intros H.
  - left. injection H as <-. split; reflexivity.
  - right. split; [reflexivity|].
    destruct (text_source d) as [v|e]; [|discriminate].
    injection H as <-. exists v. split; reflexivity.
Qed.

Lemma reads_only_read (k : string) : reads_only (read k).
Proof. intros d d' r H. unfold read in H. congruence. Qed.

Lemma reads_only_read_default (k : string) (v : value) :
  reads_only (read_default k v).
Proof. intros d d' r H. unfold read_default in H. congruence. Qed.

Lemma reads_only_lift {A} (r : result A) : reads_only (lift r).
Proof. intros d d' r' H. unfold lift in H. congruence. Qed.

Lemma reads_only_bind {A B} (m : M A) (f : A -> M B) :
  reads_only m -> (forall a, reads_only (f a)) -> reads_only (bindM m f).
Proof.
  intros Hm Hf d d' r H. unfold bindM in H.
  destruct (m d) as [d1 [a|e]] eqn:E.
  - apply Hm in E. subst d1. exact (Hf a _ _ _ H).
  - apply Hm in E. congruence.
Qed.

Create HintDb reads.
#[local] Hint Resolve reads_only_read reads_only_read_default
  reads_only_lift reads_only_bind : reads.

Lemma bindM_cong2 {A B} (m1 m2 : M A) (f g : A -> M B) (d : dict) :
  m1 d = m2 d ->
  (forall a d1, m1 d = (d1, Ok a) -> f a d1 = g a d1) ->
  bindM m1 f d = bindM m2 g d.
Proof.
  intros Hm H. unfold bindM. rewrite <- Hm.
  destruct (m1 d) as [d1 [a|e]]; [apply H; reflexivity | reflexivity].
Qed.

Lemma bindM_cong {A B} (m : M A) (f g : A -> M B) (d : dict) :
  (forall a d1, m d = (d1, Ok a) -> f a d1 = g a d1) ->
  bindM m f d = bindM m g d.
Proof. apply bindM_cong2. reflexivity. Qed.

(** One reading step of a computation, of which both sides of the goal
    start with. *)
Ltac reading_step :=
  apply bindM_cong;
  let a := fresh "a" in
  let d1 := fresh "d" in
  let Hm := fresh "Hm" in
  intros a d1 Hm;
  match type of Hm with
  | ?m ?d = (_, _) =>
      let E := fresh "E" in
      assert (E : d1 = d)
        by (apply (fun P : reads_only m => P d d1 (Ok a) Hm);
            eauto with reads);
      subst d1; clear Hm
  end.

Lemma nested_ext (call1 call2 : string -> dict -> option (value * result Tweet.t))
    (k : string) (d : dict) :
  call1 k d = call2 k d ->
  Tweet.nested call1 k d = Tweet.nested call2 k d.
Proof. unfold Tweet.nested. intros ->. reflexivity. Qed.

(** [construct] consults [call] twice: at ['quoted_status'] on the dict
    it was given, and at ['retweeted_status'] on the dict the first call
    left. *)
Lemma construct_ext
    (call1 call2 : string -> dict -> option (value * result Tweet.t))
    (d0 d : dict) :
  (forall k d', lookup k d' = lookup k d0 -> call1 k d' = call2 k d') ->
  lookup "quoted_status" d = lookup "quoted_status" d0 ->
  lookup "retweeted_status" d = lookup "retweeted_status" d0 ->
  Tweet.construct call1 d = Tweet.construct call2 d.
Proof.
  intros Hcall Hq Hr. unfold Tweet.construct.
  do 12 reading_step.
  apply bindM_cong2; [exact (nested_ext call1 call2 _ d (Hcall _ _ Hq))|].
  intros q dq Hnested.
  do 7 reading_step.
  assert (Hr' : lookup "retweeted_status" dq = lookup "retweeted_status" d0)
    by (rewrite (nested_other _ _ "retweeted_status" _ _ _ Hnested);
        [exact Hr | reflexivity]).
  apply bindM_cong2; [exact (nested_ext call1 call2 _ dq (Hcall _ _ Hr'))|].
  reflexivity.
Qed.

Lemma body_ext
    (call1 call2 : string -> dict -> option (value * result Tweet.t))
    (d : dict) :
  (forall k d', lookup k d' = lookup k d -> call1 k d' = call2 k d') ->
  Tweet.body call1 d = Tweet.body call2 d.
Proof.
  intros Hcall. unfold Tweet.body.
  apply bindM_cong. intros [] d1 Hres.
  apply (construct_ext call1 call2 d d1 Hcall);
    apply (resolve_full_text_other _ _ _ _ Hres); reflexivity.
Qed.

(** The equation of the deserializer: the recursive calls are made on
    what [data] binds to ['quoted_status'] and ['retweeted_status'] when
    they are reached. *)
Lemma deserializer_eq (d : dict) :
  Tweet.deserializer (VDict d) =
    let (d', r) := Tweet.body recursive_call d in (VDict d', r).
Proof.
  simpl.
  rewrite (body_ext _ recursive_call); unfold recursive_call.
  - reflexivity.
  - intros k d' Hsame. rewrite Hsame. clear Hsame.
    induction d as [|[k' v] d IH]; simpl; [reflexivity|].
    destruct (String.eqb k k'); [reflexivity | exact IH].
Qed.

(** Taking apart a computation that ended normally, one step at a time. *)
Ltac step_ok H :=
  let a := fresh "a" in
  let d1 := fresh "d" in
  let Hm := fresh "Hm" in
  apply bindM_ok in H; destruct H as [a [d1 [Hm H]]];
  first
    [ apply read_ok in Hm; destruct Hm as [-> Hm]
    | unfold read_default in Hm; injection Hm as <- <-
    | let u := fresh "u" in
      let d2 := fresh "d" in
      let Hu := fresh "Hu" in
      apply bindM_ok in Hm; destruct Hm as [u [d2 [Hu Hm]]];
      apply read_ok in Hu; destruct Hu as [-> Hu];
      unfold lift in Hm; injection Hm as <- Hm
    | idtac ].

Lemma construct_ok
    (call : string -> dict -> option (value * result Tweet.t))
    (d d' : dict) (t : Tweet.t) :
  Tweet.construct call d = (d', Ok t) ->
  fields_from d t
  /\ exists dq,
       Tweet.nested call "quoted_status" d
         = (dq, Ok (Tweet.quoted_status t))
       /\ Tweet.nested call "retweeted_status" dq
          = (d', Ok (Tweet.retweeted_status t)).
Proof.
  intros H. unfold Tweet.construct in H.
  do 21 step_ok H.
  unfold ret in H. injection H as <- <-.
  match goal with
  | Hn : Tweet.nested _ "quoted_status" _ = _ |- _ => rename Hn into Hq
  end.
  match goal with
  | Hn : Tweet.nested _ "retweeted_status" _ = _ |- _ => rename Hn into Hr
  end.
  match type of Hq with _ = (?x, _) => rename x into dq end.
  assert (Hsame : forall k, String.eqb "quoted_status" k = false ->
                            lookup k dq = lookup k d)
    by (intros k; exact (nested_other _ _ k _ _ _ Hq)).
  split.
  - repeat match goal with
           | Hk : lookup ?k dq = _ |- _ => rewrite (Hsame k eq_refl) in Hk
           end.
    unfold fields_from. simpl.
    repeat split; try assumption.
    + eexists; split; eassumption.
    + eexists; split; eassumption.
    + unfold get_default. rewrite Hsame by reflexivity. reflexivity.
  - exists dq. simpl. split; assumption.
Qed.

(** What a call that returned a post did. *)
Lemma deserializer_ok (data data' : value) (t : Tweet.t) :
  Tweet.deserializer data = (data', Ok t) ->
  exists d d1 dq d',
    data = VDict d /\ data' = VDict d'
    /\ Tweet.resolve_full_text d = (d1, Ok tt)
    /\ fields_from d1 t
    /\ Tweet.nested recursive_call "quoted_status" d1
       = (dq, Ok (Tweet.quoted_status t))
    /\ Tweet.nested recursive_call "retweeted_status" dq
       = (d', Ok (Tweet.retweeted_status t)).
Proof.
  destruct data as [| | | | | |d]; try discriminate.
  rewrite deserializer_eq. unfold Tweet.body.
  destruct (bindM Tweet.resolve_full_text _ d) as [d' r] eqn:H.
  intros E. injection E as <- ->.
  apply bindM_ok in H. destruct H as [[] [d1 [Hres H]]].
  apply construct_ok in H. destruct H as [Hfields [dq [Hq Hr]]].
  exists d, d1, dq, d'.
  split; [reflexivity|]. split; [reflexivity|]. split; [exact Hres|].
  split; [exact Hfields|]. split; [exact Hq | exact Hr].
Qed.

Lemma nested_ok (k : string) (d dq : dict) (o : option Tweet.t) :
  Tweet.nested recursive_call k d = (dq, Ok o) ->
  (lookup k d = None /\ o = None /\ dq = d)
  \/ (exists v v' tw,
        lookup k d = Some v
        /\ Tweet.deserializer v = (v', Ok tw)
        /\ o = Some tw /\ dq = set k v' d).
Proof.
  unfold Tweet.nested, recursive_call.
  destruct (lookup k d) as [v|] eqn:Hk; simpl.
  - destruct (Tweet.deserializer v) as [v' [tw|e]] eqn:E; intros H;
      [|discriminate].
    injection H as <- <-. right. exists v, v', tw.
    repeat split; trivial.
  - intros H. injection H as <- <-. left. repeat split; trivial.
Qed.

(** The text of a post that was returned: the ['full_text'] of the
    payload when it has one, what [text_source] picks otherwise. *)
Lemma deserializer_full_text (d : dict) (data' : value) (t : Tweet.t) :
  Tweet.deserializer (VDict d) = (data', Ok t) ->
  (has "full_text" d = true
   /\ lookup "full_text" d = Some (Tweet.full_text t))
  \/ (has "full_text" d = false
      /\ text_source d = Ok (Tweet.full_text t)).
Proof.
  intros H. apply deserializer_ok in H.
  destruct H as [d0 [d1 [dq [d' [E [_ [Hres [Hfields _]]]]]]]].
  injection E as <-.
  destruct Hfields as [_ [_ [Htext _]]].
  destruct (resolve_full_text_ok _ _ Hres) as [[Hhas ->] | [Hhas [v [Hv ->]]]].
  - left. split; assumption.
  - right. split; [assumption|].
    rewrite lookup_set_same in Htext. congruence.
Qed.

(** C1, as the code has it.  The text of a returned post is the
    payload's ['full_text'] when the key is there; else the text of the
    extension record when ['truncated'] is true and the record is there;
    else the text of the extension record of the reshared post when
    there is one; else the short ['text'].  It is a str when the payload
    holds strs under these keys. *)
Theorem full_text_resolution (d : dict) (data' : value) (t : Tweet.t) :
  Tweet.deserializer (VDict d) = (data', Ok t) ->
  (forall v, lookup "full_text" d = Some v -> Tweet.full_text t = v)
  /\ (lookup "full_text" d = None ->
      exists truncated,
        lookup "truncated" d = Some truncated
        /\ (truthy truncated = true ->
            forall ext,
              lookup "extended_tweet" d = Some ext ->
              getitem ext "full_text" = Ok (Tweet.full_text t))
        /\ (truthy truncated = false \/ lookup "extended_tweet" d = None ->
            (forall rs ext,
               lookup "retweeted_status" d = Some rs ->
               getitem rs "extended_tweet" = Ok ext ->
               getitem ext "full_text" = Ok (Tweet.full_text t))
            /\ ((forall rs,
                   lookup "retweeted_status" d = Some rs ->
                   getitem rs "extended_tweet"
                     = Err (KeyError "extended_tweet")) ->
                lookup "text" d = Some (Tweet.full_text t))))
  /\ (texts_are_strings d = true ->
      exists s, Tweet.full_text t = VStr s).
Proof.
  intros H.
  assert (Hnested : forall rs, lookup "retweeted_status" d = Some rs ->
                               exists dr, rs = VDict dr).
  { intros rs Hrs. apply deserializer_ok in H.
    destruct H as [d0 [d1 [dq [d' [E [_ [Hres [_ [Hq Hr]]]]]]]]].
    injection E as <-.
    assert (Hrs' : lookup "retweeted_status" dq = Some rs).
    { rewrite (nested_other _ _ "retweeted_status" _ _ _ Hq eq_refl).
      rewrite (resolve_full_text_other _ _ _ "retweeted_status" Hres
                 eq_refl).
      exact Hrs. }
    destruct (nested_ok _ _ _ _ Hr)
      as [[Hnone _] | [v [v' [tw [Hv [Hdes _]]]]]]; [congruence|].
    rewrite Hrs' in Hv. injection Hv as <-.
    destruct rs as [| | | | | |dr]; try discriminate.
    exists dr. reflexivity. }
  destruct (deserializer_full_text _ _ _ H) as [[Hhas Htext] | [Hhas Htext]].
  - split; [intros v Hv; congruence|].
    split; [intros Hnone; congruence|].
    intros Hstr. unfold texts_are_strings, string_at in Hstr.
    rewrite Htext in Hstr.
    destruct (Tweet.full_text t) as [| | | |s| |]; try discriminate.
    exists s. reflexivity.
  - apply has_false in Hhas.
    split; [intros v Hv; congruence|].
    unfold text_source, reshare_text_source, bind, getitem in Htext.
    destruct (lookup "truncated" d) as [truncated|]; [|discriminate].
    split.
    + intros _. exists truncated. split; [reflexivity|].
      unfold has in Htext.
      split.
      * intros Htrue ext Hext. rewrite Htrue, Hext in Htext. exact Htext.
      * intros Hcase.
        assert (Helse :
          truthy truncated
          && match lookup "extended_tweet" d with
             | Some _ => true
             | None => false
             end = false)
          by (destruct Hcase as [-> | ->];
              [reflexivity | apply andb_false_r]).
        rewrite Helse in Htext. clear Helse Hcase.
        destruct (lookup "retweeted_status" d) as [rs|].
        -- destruct (Hnested rs eq_refl) as [dr ->].
           simpl in Htext. unfold has in Htext.
           split.
           ++ intros rs ext Hrs Hext. injection Hrs as <-.
              simpl in Hext.
              destruct (lookup "extended_tweet" dr) as [ext'|];
                [|discriminate].
              injection Hext as ->. exact Htext.
           ++ intros Habsent. specialize (Habsent _ eq_refl).
              simpl in Habsent.
              destruct (lookup "extended_tweet" dr); [discriminate|].
              destruct (lookup "text" d); congruence.
        -- split; [intros rs ext Hrs; discriminate|].
           intros _. destruct (lookup "text" d); congruence.
    + intros Hstr. unfold texts_are_strings, string_at in Hstr.
      rewrite Hhas in Hstr. simpl in Hstr.
      apply andb_prop in Hstr. destruct Hstr as [Hstr Hrs].
      apply andb_prop in Hstr. destruct Hstr as [Hshort Hext].
      assert (Hgoal : is_string (Tweet.full_text t) = true).
      { unfold has in Htext.
        destruct (truthy truncated
                  && match lookup "extended_tweet" d with
                     | Some _ => true
                     | None => false
                     end).
        - destruct (lookup "extended_tweet" d) as [ext|]; [|discriminate].
          destruct ext as [| | | | | |dx]; try discriminate.
          destruct (lookup "full_text" dx); [|discriminate].
          congruence.
        - destruct (lookup "retweeted_status" d) as [rs|].
          + destruct (Hnested rs eq_refl) as [dr ->].
            simpl in Htext. unfold has in Htext.
            destruct (lookup "extended_tweet" dr) as [ext|].
            * destruct ext as [| | | | | |dx]; try discriminate.
              destruct (lookup "full_text" dx); [|discriminate].
              congruence.
            * destruct (lookup "text" d); [|discriminate]. congruence.
          + destruct (lookup "text" d); [|discriminate]. congruence. }
      destruct (Tweet.full_text t) as [| | | |s| |]; try discriminate.
      exists s. reflexivity.
Qed.

Lemma full_text_resolution_witness :
  match Tweet.deserializer plain_post with
  | (_, Ok t) => Tweet.full_text t = VStr "hello"
  | (_, Err _) => False
  end.
Proof.
  destruct (Tweet.deserializer plain_post) as [data' [t|e]] eqn:H;
    [|vm_compute in H; discriminate].
  destruct (full_text_resolution _ data' t H) as [_ [Hchain _]].
  destruct (Hchain eq_refl) as [truncated [Htr [_ Hshort]]].
  destruct (Hshort (or_intror eq_refl)) as [_ Htext].
  assert (Hfound : lookup "text" (("text", VStr "hello")
                     :: ("truncated", VBool false) :: sample_fields "alice")
                   = Some (Tweet.full_text t))
    by (apply Htext; intros rs Hrs; vm_compute in Hrs; discriminate).
  change (Some (VStr "hello") = Some (Tweet.full_text t)) in Hfound.
  injection Hfound as <-. reflexivity.
Defined.

(** The claim C1 as it is written fails on a payload that has all the
    keys and [null] for its text: the call returns a post, and the
    [full_text] of that post is [None], not a str. *)
Lemma full_text_of_null_text :
  exists data' t,
    Tweet.deserializer null_text_post = (data', Ok t)
    /\ Tweet.full_text t = VNone
    /\ forall s, Tweet.full_text t <> VStr s.
Proof.
  eexists. eexists.
  split; [vm_compute; reflexivity|].
  split; [reflexivity | intros s; discriminate].
Qed.

(** ** The payload after the call *)

Lemma value_dict_ind (P : value -> Prop) :
  (forall v,
     (forall d k x, v = VDict d -> lookup k d = Some x -> P x) -> P v) ->
  forall v, P v.
Proof.
  intros H. fix IH 1. intros v. apply H.
  destruct v as [| | | | | |entries]; try discriminate.
  intros d k x E. injection E as <-.
  induction entries as [|[k' v'] l IHl]; simpl.
  - discriminate.
  - destruct (String.eqb k k').
    + intros Hx. injection Hx as <-. apply IH.
    + exact IHl.
Qed.

Lemma bindM_inv {A B} (m : M A) (f : A -> M B) (d d' : dict)
    (r : result B) :
  bindM m f d = (d', r) ->
  (exists e, m d = (d', Err e))
  \/ exists a d1, m d = (d1, Ok a) /\ f a d1 = (d', r).
Proof.
  unfold bindM. destruct (m d) as [d1 [a|e]]; intros H.
  - right. exists a, d1. split; [reflexivity | exact H].
  - left. exists e. injection H as -> _. reflexivity.
Qed.

(** A step of a computation that only reads: it raises and leaves
    [data] as it is, or it goes on with [data] as it is. *)
Ltac pure_step H :=
  apply bindM_inv in H;
  let e := fresh "e" in
  let a := fresh "a" in
  let d1 := fresh "d" in
  let Hm := fresh "Hm" in
  destruct H as [[e H] | [a [d1 [Hm H]]]];
  [ match type of H with
    | ?m ?d = (?d', _) =>
        let E := fresh "E" in
        assert (E : d' = d)
          by (apply (fun P : reads_only m => P d d' (Err e) H);
              eauto with reads);
        subst d'
    end
  | match type of Hm with
    | ?m ?d = (_, _) =>
        let E := fresh "E" in
        assert (E : d1 = d)
          by (apply (fun P : reads_only m => P d d1 (Ok a) Hm);
              eauto with reads);
        subst d1; clear Hm
    end ].

(** The only writes of [construct] are those of its two nested calls,
    when it gets to them. *)
Lemma construct_state
    (call : string -> dict -> option (value * result Tweet.t))
    (d d' : dict) (r : result Tweet.t) :
  Tweet.construct call d = (d', r) ->
  exists dq,
    (dq = d \/ exists rq, Tweet.nested call "quoted_status" d = (dq, rq))
    /\ (d' = dq
        \/ exists rr, Tweet.nested call "retweeted_status" dq = (d', rr)).
Proof.
  intros H. unfold Tweet.construct in H.
  do 12 (pure_step H; [exists d; split; left; reflexivity|]).
  apply bindM_inv in H. destruct H as [[e H] | [q [dq [Hq H]]]].
  - exists d'. split; [right; eexists; exact H | left; reflexivity].
  - exists dq. split; [right; eexists; exact Hq|].
    clear Hq.
    do 7 (pure_step H; [left; reflexivity|]).
    apply bindM_inv in H. destruct H as [[e H] | [rt [dr [Hr H]]]].
    + right. eexists. exact H.
    + unfold ret in H. injection H as <- _.
      right. eexists. exact Hr.
Qed.

Lemma filled_refl (v : value) : filled v v.
Proof.
  induction v as [v IH] using value_dict_ind.
  destruct v as [| | | | | |d]; try (apply filled_other; discriminate).
  apply filled_dict.
  - reflexivity.
  - trivial.
  - intros H. left. exact H.
  - intros k _. split; [trivial|].
    intros v Hv. exists v. split; [exact Hv|].
    exact (IH d k v eq_refl Hv).
Qed.

Lemma refilled_refl (k : string) (d : dict) : refilled k d d.
Proof.
  repeat split; trivial.
  intros v Hv. exists v. split; [exact Hv | apply filled_refl].
Qed.

Lemma nested_refilled (k : string) (d d' : dict)
    (r : result (option Tweet.t)) :
  (forall x, lookup k d = Some x -> filled x (fst (Tweet.deserializer x))) ->
  Tweet.nested recursive_call k d = (d', r) ->
  refilled k d d'.
Proof.
  intros IH H. unfold Tweet.nested, recursive_call in H. unfold refilled.
  destruct (lookup k d) as [x|] eqn:Hk; simpl in H.
  - specialize (IH x eq_refl).
    destruct (Tweet.deserializer x) as [x' [tw|e]]; simpl in IH;
      injection H as <- _;
      (split; [intros k' Hne; apply lookup_set_other; exact Hne|];
       split; [discriminate|];
       intros v Hv; injection Hv as <-;
       exists x'; split; [apply lookup_set_same | exact IH]).
  - injection H as <- _.
    split; [reflexivity|]. split; [trivial|]. rewrite Hk. discriminate.
Qed.

Lemma nested_unchanged (k : string) (d d' : dict)
    (r : result (option Tweet.t)) :
  (forall x, lookup k d = Some x -> fst (Tweet.deserializer x) = x) ->
  Tweet.nested recursive_call k d = (d', r) ->
  d' = d.
Proof.
  intros IH H. unfold Tweet.nested, recursive_call in H.
  destruct (lookup k d) as [x|] eqn:Hk; simpl in H.
  - specialize (IH x eq_refl).
    destruct (Tweet.deserializer x) as [x' [tw|e]]; simpl in IH; subst x';
      injection H as <- _; apply set_lookup_same; exact Hk.
  - injection H as <- _. reflexivity.
Qed.

(** What lines 333-339 leave in [data]. *)
Lemma resolve_full_text_state (d d1 : dict) (r : result unit) :
  Tweet.resolve_full_text d = (d1, r) ->
  (forall k, String.eqb "full_text" k = false -> lookup k d1 = lookup k d)
  /\ (forall v, lookup "full_text" d = Some v ->
                lookup "full_text" d1 = Some v)
  /\ (lookup "full_text" d = None ->
      lookup "full_text" d1 = None
      \/ exists v, text_source d = Ok v /\ lookup "full_text" d1 = Some v)
  /\ (has "full_text" d = true -> d1 = d).
Proof.
  intros H.
  split; [intros k; exact (resolve_full_text_other _ _ _ k H)|].
  rewrite resolve_full_text_eq in H.
  destruct (has "full_text" d) eqn:Hhas.
  - injection H as <- _. repeat split; trivial. intros Hn. left. exact Hn.
  - apply has_false in Hhas.
    destruct (text_source d) as [v|e]; injection H as <- _.
    + split; [congruence|]. split; [|discriminate].
      intros _. right. exists v. split; [reflexivity|].
      apply lookup_set_same.
    + split; [trivial|]. split; [|discriminate]. intros Hn. left. exact Hn.
Qed.

(** What the whole body leaves in [data], given what the recursive calls
    leave in the nested posts. *)
Lemma body_state (d d' : dict) (r : result Tweet.t) :
  Tweet.body recursive_call d = (d', r) ->
  exists d1 dq r1,
    Tweet.resolve_full_text d = (d1, r1)
    /\ (dq = d1
        \/ exists rq,
             Tweet.nested recursive_call "quoted_status" d1 = (dq, rq))
    /\ (d' = dq
        \/ exists rr,
             Tweet.nested recursive_call "retweeted_status" dq = (d', rr)).
Proof.
  intros H. unfold Tweet.body in H.
  apply bindM_inv in H. destruct H as [[e H] | [[] [d1 [Hres H]]]].
  - exists d', d', (Err e).
    split; [exact H|]. split; left; reflexivity.
  - destruct (construct_state _ _ _ _ H) as [dq [Hq Hr]].
    exists d1, dq, (Ok tt). split; [exact Hres|]. split; assumption.
Qed.




(** ** The per-entity deserializers *)


(** Taking apart a chain of subscripts of the dict [d] that ended
    normally. *)
Ltac subscripts_ok H d :=
  repeat match type of H with
         | bind (match lookup ?k d with _ => _ end) _ = Ok _ =>
             destruct (lookup k d) eqn:?; [|discriminate H];
             cbn [bind] in H
         end.

Lemma user_ok (u : value) (x : TweetUser.t) :
  TweetUser.deserializer u = Ok x ->
  exists ud,
    u = VDict ud
    /\ (forall k field, In (k, field) user_fields ->
                        lookup k ud = Some (field x))
    /\ TweetUser.profile_banner_url x
       = get_default "profile_banner_url" VNone ud.
Proof.
  intros H. destruct u as [| | | | | |ud]; try discriminate.
  exists ud. split; [reflexivity|].
  unfold TweetUser.deserializer, getitem, get in H.
  subscripts_ok H ud.
  cbn [bind] in H.
  subscripts_ok H ud.
  injection H as <-. simpl.
  split; [|reflexivity].
  intros k field Hin.
  repeat (destruct Hin as [Hin | Hin];
          [injection Hin as <- <-; assumption|]).
  destruct Hin.
Qed.

(** ** Payloads without optional fields *)

(** C9. In a post returned for a payload, every optional field the
    payload has nothing for (its key is missing, or bound to [null]) is
    [None], and so are the optional fields of its author; a nested post
    is [None] when its key is missing.  The row of [tweets_to_df] for a
    post of a payload with neither ['quoted_status'] nor
    ['retweeted_status'] has [is_retweet = False] and [is_quote = None]. *)
Theorem no_optional_field (d : dict) (data' : value) (t : Tweet.t) :
  Tweet.deserializer (VDict d) = (data', Ok t) ->
  (forall k field,
     In (k, field) optional_fields -> unset k d = true -> field t = VNone)
  /\ (lookup "quoted_status" d = None -> Tweet.quoted_status t = None)
  /\ (lookup "retweeted_status" d = None -> Tweet.retweeted_status t = None)
  /\ (forall ud k field,
        lookup "user" d = Some (VDict ud) ->
        In (k, field) optional_user_fields ->
        unset k ud = true ->
        field (Tweet.user t) = VNone)
  /\ (lookup "quoted_status" d = None ->
      lookup "retweeted_status" d = None ->
      exists row,
        tweets_to_df [t] = [row]
        /\ Row.is_retweet row = VBool false
        /\ Row.is_quote row = VNone
        /\ Row.retweet_sender row = VNone
        /\ Row.quoted_tweet_sender row = VNone
        /\ Row.quoted_tweet_text row = VNone).
Proof.
  intros H. apply deserializer_ok in H.
  destruct H as [d0 [d1 [dq [d' [E [_ [Hres [Hfields [Hq Hr]]]]]]]]].
  injection E as <-.
  assert (Hsame : forall k, String.eqb "full_text" k = false ->
                            lookup k d1 = lookup k d)
    by (intros k; exact (resolve_full_text_other _ _ _ k Hres)).
  assert (Hquoted : lookup "quoted_status" d = None ->
                    Tweet.quoted_status t = None).
  { intros Hn.
    destruct (nested_ok _ _ _ _ Hq)
      as [[_ [Ho _]] | [v [v' [tw [Hv _]]]]]; [exact Ho|].
    rewrite (Hsame "quoted_status" eq_refl) in Hv. congruence. }
  assert (Hreshared : lookup "retweeted_status" d = None ->
                      Tweet.retweeted_status t = None).
  { intros Hn.
    destruct (nested_ok _ _ _ _ Hr)
      as [[_ [Ho _]] | [v [v' [tw [Hv _]]]]]; [exact Ho|].
    rewrite (nested_other _ _ "retweeted_status" _ _ _ Hq eq_refl) in Hv.
    rewrite (Hsame "retweeted_status" eq_refl) in Hv. congruence. }
  destruct Hfields as [_ [_ [_ [_ [F1 [F2 [F3 [[u [Hu Huser]]
    [F4 [F5 [_ [F6 [_ [_ [_ [F7 [F8 [F9 F10]]]]]]]]]]]]]]]]]].
  unfold get_default in F6, F9.
  repeat match goal with
         | F : context [lookup ?k d1] |- _ => rewrite (Hsame k eq_refl) in F
         end.
  split.
  { intros k field Hin Hunset. unfold unset in Hunset.
    repeat (destruct Hin as [Hin | Hin];
            [injection Hin as <- <-;
             match goal with
             | F : lookup ?key d = Some _ |- _ =>
                 rewrite F in Hunset;
                 match type of Hunset with
                 | match ?v with _ => _ end = true =>
                     destruct v; (reflexivity || discriminate)
                 end
             | F : _ = match lookup ?key d with _ => _ end |- _ =>
                 rewrite F;
                 destruct (lookup key d) as [[| | | | | |]|];
                 (reflexivity || discriminate)
             end|]).
    destruct Hin. }
  split; [exact Hquoted|]. split; [exact Hreshared|].
  split.
  { intros ud k field Hud Hin Hunset.
    rewrite Hud in Hu. injection Hu as <-.
    destruct (user_ok _ _ Huser) as [ud' [E [Hall Hbanner]]].
    injection E as <-. unfold unset in Hunset.
    destruct Hin as [Hin | [Hin | [Hin | [Hin | []]]]];
      injection Hin as <- <-.
    - rewrite (Hall "location" TweetUser.location) in Hunset
        by (simpl; tauto).
      destruct (TweetUser.location (Tweet.user t));
        (reflexivity || discriminate).
    - rewrite (Hall "url" TweetUser.url) in Hunset by (simpl; tauto).
      destruct (TweetUser.url (Tweet.user t));
        (reflexivity || discriminate).
    - rewrite (Hall "description" TweetUser.description) in Hunset
        by (simpl; tauto).
      destruct (TweetUser.description (Tweet.user t));
        (reflexivity || discriminate).
    - rewrite Hbanner. unfold get_default.
      destruct (lookup "profile_banner_url" ud) as [[| | | | | |]|];
        (reflexivity || discriminate). }
  intros Hnq Hnr.
  specialize (Hquoted Hnq). specialize (Hreshared Hnr).
  exists (row_of t). split; [reflexivity|].
  unfold row_of. simpl.
  destruct t; simpl in *. subst. simpl.
  repeat split; reflexivity.
Qed.

Lemma no_optional_field_witness :
  match Tweet.deserializer plain_post with
  | (_, Ok t) =>
      Tweet.quoted_status_id t = VNone
      /\ Tweet.possibly_sensitive t = VNone
      /\ Tweet.quoted_status t = None
      /\ Tweet.retweeted_status t = None
      /\ TweetUser.profile_banner_url (Tweet.user t) = VNone
      /\ map Row.is_retweet (tweets_to_df [t]) = [VBool false]
      /\ map Row.is_quote (tweets_to_df [t]) = [VNone]
  | (_, Err _) => False
  end.
Proof.
  destruct (Tweet.deserializer plain_post) as [data' [t|e]] eqn:H;
    [|vm_compute in H; discriminate].
  destruct (no_optional_field _ data' t H)
    as [Hfields [Hq [Hr [Huser Hrow]]]].
  split; [apply (Hfields "quoted_status_id"); [simpl; tauto | reflexivity]|].
  split;
    [apply (Hfields "possibly_sensitive"); [simpl; tauto | reflexivity]|].
  split; [apply Hq; reflexivity|].
  split; [apply Hr; reflexivity|].
  split;
    [eapply (Huser _ "profile_banner_url");
     [reflexivity | simpl; tauto | reflexivity]|].
  destruct (Hrow eq_refl eq_refl) as [row [-> [Hret [Hquote _]]]].
  simpl. rewrite Hret, Hquote. split; reflexivity.
Defined.

(** ** Missing keys *)

(** A subscript of the dict [d] at the head of a chain: go on when the
    key is there; when it is not, the chain raises [KeyError] and one of
    the required keys is missing. *)
Ltac missing_key :=
  unfold by_keys, has_keys, has; simpl forallb; use_lookups;
  cbn [andb]; rewrite ?andb_false_r; reflexivity.

Ltac subscript_step d :=
  match goal with
  | |- by_keys (bind (match lookup ?k d with _ => _ end) _) _ =>
      destruct (lookup k d) eqn:?; cbn [bind]; [|missing_key]
  end.

Lemma user_by_keys (u : value) :
  is_dict u = true ->
  by_keys (TweetUser.deserializer u) (has_keys user_required u).
Proof.
  destruct u as [| | | | | |ud]; try discriminate. intros _.
  unfold TweetUser.deserializer, getitem, get.
  do 14 subscript_step ud.
  do 4 subscript_step ud.
  missing_key.
Qed.

(** [tuple(data['indices'])] at the head of a chain, on a record whose
    ['indices'] can be enumerated. *)
Ltac indices_step d :=
  match goal with
  | Hshape : match lookup "indices" d with _ => _ end = true
    |- by_keys (bind (bind (match lookup "indices" d with _ => _ end) _) _)
         _ =>
      let i := fresh "i" in
      destruct (lookup "indices" d) as [i|] eqn:?; cbn [bind];
      [destruct i; try discriminate Hshape; cbn [iter bind] | missing_key]
  end.

Lemma hashtag_by_keys (x : value) :
  shaped_item x = true ->
  by_keys (Hashtag.deserializer x) (has_keys hashtag_required x).
Proof.
  destruct x as [| | | | | |d]; try discriminate. intros Hshape.
  unfold shaped_item in Hshape.
  unfold Hashtag.deserializer, getitem.
  indices_step d; subscript_step d; missing_key.
Qed.

Lemma url_by_keys (x : value) :
  shaped_item x = true ->
  by_keys (Url.deserializer x) (has_keys url_required x).
Proof.
  destruct x as [| | | | | |d]; try discriminate. intros Hshape.
  unfold shaped_item in Hshape.
  unfold Url.deserializer, getitem.
  do 2 subscript_step d.
  indices_step d; subscript_step d; missing_key.
Qed.

Lemma user_mention_by_keys (x : value) :
  shaped_item x = true ->
  by_keys (UserMention.deserializer x) (has_keys user_mention_required x).
Proof.
  destruct x as [| | | | | |d]; try discriminate. intros Hshape.
  unfold shaped_item in Hshape.
  unfold UserMention.deserializer, getitem.
  subscript_step d.
  indices_step d; do 2 subscript_step d; missing_key.
Qed.

Lemma symbol_by_keys (x : value) :
  shaped_item x = true ->
  by_keys (Symbol.deserializer x) (has_keys symbol_required x).
Proof.
  destruct x as [| | | | | |d]; try discriminate. intros Hshape.
  unfold shaped_item in Hshape.
  unfold Symbol.deserializer, getitem.
  indices_step d; subscript_step d; missing_key.
Qed.

(** A comprehension over records goes by the keys of each record. *)
Lemma mapM_by_keys {A} (f : value -> result A) (keys : list string)
    (xs : list value) :
  (forall x, shaped_item x = true -> by_keys (f x) (has_keys keys x)) ->
  forallb shaped_item xs = true ->
  by_keys (mapM f xs) (forallb (has_keys keys) xs).
Proof.
  intros Hf. induction xs as [|x xs IH]; simpl; [reflexivity|].
  intros Hshape. apply andb_prop in Hshape. destruct Hshape as [Hx Hxs].
  specialize (Hf x Hx). specialize (IH Hxs).
  unfold by_keys in *.
  destruct (f x) as [y|[k| |]]; try contradiction.
  - rewrite Hf. simpl.
    destruct (mapM f xs) as [ys|[k| |]]; try contradiction; exact IH.
  - rewrite Hf. reflexivity.
Qed.

(** One entity array of [Entities.deserializer]. *)
Lemma items_by_keys {A} (f : value -> result A) (keys : list string)
    (k : string) (d : dict) :
  (forall x, shaped_item x = true -> by_keys (f x) (has_keys keys x)) ->
  shaped_items k d = true ->
  by_keys (l <- getitem (VDict d) k;; xs <- iter l;; mapM f xs)%result
    (items_have keys k d).
Proof.
  intros Hf Hshape. unfold shaped_items in Hshape.
  unfold items_have, getitem.
  destruct (lookup k d) as [l|]; simpl; [|reflexivity].
  destruct l as [| | | | |xs|]; try discriminate.
  simpl. exact (mapM_by_keys f keys xs Hf Hshape).
Qed.

Lemma bind_by_keys {A B} (r : result A) (f : A -> result B) (p q : bool) :
  by_keys r p ->
  (forall a, by_keys (f a) q) ->
  by_keys (bind r f) (p && q).
Proof.
  unfold by_keys. intros Hr Hf.
  destruct r as [a|[k| |]]; try contradiction; simpl.
  - rewrite Hr. simpl. exact (Hf a).
  - rewrite Hr. reflexivity.
Qed.

Lemma entities_by_keys (e : value) :
  shaped_entities e = true ->
  by_keys (Entities.deserializer e) (complete_entities e).
Proof.
  destruct e as [| | | | | |d]; try discriminate. simpl.
  intros Hshape.
  apply andb_prop in Hshape. destruct Hshape as [Hshape H4].
  apply andb_prop in Hshape. destruct Hshape as [Hshape H3].
  apply andb_prop in Hshape. destruct Hshape as [H1 H2].
  unfold Entities.deserializer.
  rewrite <- !andb_assoc.
  apply bind_by_keys;
    [exact (items_by_keys _ _ _ _ hashtag_by_keys H1)|]. intros hs.
  apply bind_by_keys;
    [exact (items_by_keys _ _ _ _ url_by_keys H2)|]. intros us.
  apply bind_by_keys;
    [exact (items_by_keys _ _ _ _ user_mention_by_keys H3)|]. intros ms.
  rewrite <- (andb_true_r (items_have symbol_required "symbols" d)).
  apply bind_by_keys;
    [exact (items_by_keys _ _ _ _ symbol_by_keys H4)|]. intros ss.
  reflexivity.
Qed.

(** Lines 334-339 go by the keys, on a payload whose extension record
    and reshared post are dicts. *)
Lemma reshare_text_source_by_keys (d : dict) :
  (forall rs,
     lookup "retweeted_status" d = Some rs ->
     exists dr,
       rs = VDict dr
       /\ forall x, lookup "extended_tweet" dr = Some x -> is_dict x = true) ->
  by_keys (reshare_text_source d) (reshare_text_keys d).
Proof.
  intros Hrs.
  unfold reshare_text_source, reshare_text_keys, getitem, bind, has.
  destruct (lookup "retweeted_status" d) as [rs|]; simpl.
  - destruct (Hrs rs eq_refl) as [dr [-> Hdr]]. simpl. unfold has.
    destruct (lookup "extended_tweet" dr) as [ext|]; simpl.
    + specialize (Hdr ext eq_refl).
      destruct ext as [| | | | | |dx]; try discriminate. simpl.
      destruct (lookup "full_text" dx); reflexivity.
    + destruct (lookup "text" d); reflexivity.
  - destruct (lookup "text" d); reflexivity.
Qed.

Lemma text_source_by_keys (d : dict) :
  (forall x, lookup "extended_tweet" d = Some x -> is_dict x = true) ->
  (forall rs,
     lookup "retweeted_status" d = Some rs ->
     exists dr,
       rs = VDict dr
       /\ forall x, lookup "extended_tweet" dr = Some x -> is_dict x = true) ->
  by_keys (text_source d) (text_keys d).
Proof.
  intros Hext Hrs.
  pose proof (reshare_text_source_by_keys d Hrs) as Hrest.
  unfold text_source, text_keys, getitem, bind, has.
  destruct (lookup "truncated" d) as [truncated|]; [|reflexivity].
  destruct (truthy truncated); simpl; [|exact Hrest].
  destruct (lookup "extended_tweet" d) as [ext|]; simpl; [|exact Hrest].
  specialize (Hext ext eq_refl).
  destruct ext as [| | | | | |dx]; try discriminate. simpl.
  destruct (lookup "full_text" dx); reflexivity.
Qed.

(** A step of a computation that raised: the subscript at its head
    raised, on a key that is missing, or the computation went on. *)
Ltac step_err H d :=
  apply bindM_err in H;
  let a := fresh "a" in
  let d1 := fresh "d" in
  let Hm := fresh "Hm" in
  destruct H as [H | [a [d1 [Hm H]]]];
  [ first
      [ apply read_err in H; destruct H as [_ [H ->]];
        left; eexists; split; [|split; [exact H | reflexivity]];
        simpl; tauto
      | unfold read_default in H; discriminate H ]
  | first
      [ apply read_ok in Hm; destruct Hm as [-> Hm]
      | unfold read_default in Hm; injection Hm as <- <- ] ].

(** Why [construct] raised: a subscript on [data] found no key, or the
    deserializer of the author, of the entities or of a nested post
    raised. *)
Lemma construct_err
    (call : string -> dict -> option (value * result Tweet.t))
    (d d' : dict) (e : exn) :
  Tweet.construct call d = (d', Err e) ->
  (exists k, In k ("full_text" :: tweet_required)
             /\ lookup k d = None /\ e = KeyError k)
  \/ (exists u, lookup "user" d = Some u
                /\ TweetUser.deserializer u = Err e)
  \/ (exists en, lookup "entities" d = Some en
                 /\ Entities.deserializer en = Err e)
  \/ (exists v', call "quoted_status" d = Some (v', Err e))
  \/ (exists dq rq v',
        Tweet.nested call "quoted_status" d = (dq, rq)
        /\ call "retweeted_status" dq = Some (v', Err e)).
Proof.
  intros H. unfold Tweet.construct in H.
  do 7 step_err H d.
  (* the author *)
  apply bindM_err in H. destruct H as [H | [user [du [Huser H]]]].
  { apply bindM_err in H. destruct H as [H | [u [du [Hu H]]]].
    - apply read_err in H. destruct H as [_ [H ->]].
      left. eexists. split; [|split; [exact H | reflexivity]].
      simpl; tauto.
    - apply read_ok in Hu. destruct Hu as [-> Hu].
      unfold lift in H. injection H as _ H.
      right. left. exists u. split; assumption. }
  apply bindM_ok in Huser. destruct Huser as [u [du' [Hu Huser]]].
  apply read_ok in Hu. destruct Hu as [-> Hu].
  unfold lift in Huser. injection Huser as <- Huser.
  do 4 step_err H d.
  (* the quoted post *)
  apply bindM_err in H. destruct H as [H | [q [dq [Hq H]]]].
  { unfold Tweet.nested in H.
    destruct (call "quoted_status" d) as [[v' [tw|e']]|];
      try discriminate.
    injection H as _ <-.
    right. right. right. left. exists v'. reflexivity. }
  assert (Hsame : forall k, String.eqb "quoted_status" k = false ->
                            lookup k dq = lookup k d)
    by (intros k; exact (nested_other _ _ k _ _ _ Hq)).
  assert (Hlater :
    (exists k, In k ("full_text" :: tweet_required)
               /\ lookup k dq = None /\ e = KeyError k)
    \/ (exists en, lookup "entities" dq = Some en
                   /\ Entities.deserializer en = Err e)
    \/ (exists v', call "retweeted_status" dq = Some (v', Err e))).
  { do 2 step_err H dq.
    apply bindM_err in H. destruct H as [H | [entities [de [He H]]]].
    { apply bindM_err in H. destruct H as [H | [en [de [Hen H]]]].
      - apply read_err in H. destruct H as [_ [H ->]].
        left. eexists. split; [|split; [exact H | reflexivity]].
        simpl; tauto.
      - apply read_ok in Hen. destruct Hen as [-> Hen].
        unfold lift in H. injection H as _ H.
        right. left. exists en. split; assumption. }
    apply bindM_ok in He. destruct He as [en [de' [Hen He]]].
    apply read_ok in Hen. destruct Hen as [-> Hen].
    unfold lift in He. injection He as <- He.
    do 4 step_err H dq.
    apply bindM_err in H. destruct H as [H | [rt [dr [Hr H]]]];
      [|discriminate].
    unfold Tweet.nested in H.
    destruct (call "retweeted_status" dq) as [[v' [tw|e']]|];
      try discriminate.
    injection H as _ <-.
    right. right. exists v'. reflexivity. }
  destruct Hlater as [[k [Hin [Hk ->]]] | [[en [Hen He]] | [v' Hv]]].
  - left. exists k. split; [exact Hin|]. split; [|reflexivity].
    destruct (String.eqb "quoted_status" k) eqn:Ek.
    + apply String.eqb_eq in Ek. subst k.
      simpl in Hin. repeat (destruct Hin as [Hin|Hin]; try discriminate).
      destruct Hin.
    + rewrite <- (Hsame k Ek). exact Hk.
  - right. right. left. exists en.
    rewrite <- (Hsame "entities" eq_refl). split; assumption.
  - right. right. right. right. exists dq, (Ok q), v'.
    split; assumption.
Qed.

Lemma recursive_call_some (k : string) (d : dict) (v' : value)
    (r : result Tweet.t) :
  recursive_call k d = Some (v', r) ->
  exists v, lookup k d = Some v /\ Tweet.deserializer v = (v', r).
Proof.
  unfold recursive_call. destruct (lookup k d) as [v|]; simpl; intros H;
    [|discriminate].
  injection H as H. exists v. split; [reflexivity | exact H].
Qed.

Lemma tweet_required_not_text (k : string) :
  In k tweet_required -> String.eqb "full_text" k = false.
Proof.
  intros Hin. simpl in Hin.
  repeat (destruct Hin as [<- | Hin]; [reflexivity|]). destruct Hin.
Qed.

(** On a well-shaped payload the deserializer goes by the keys: it
    returns a post when the payload is complete, and raises [KeyError]
    when it is not. *)
Lemma deserializer_by_keys (data : value) :
  well_shaped data ->
  match snd (Tweet.deserializer data) with
  | Ok _ => complete data
  | Err (KeyError _) => ~ complete data
  | Err _ => False
  end.
Proof.
  induction data as [data IH] using value_dict_ind.
  intros Hshape. inversion Hshape as [d Su Se Sx Sn E]. subst data.
  rewrite deserializer_eq.
  destruct (Tweet.body recursive_call d) as [d' r] eqn:Hbody. simpl.
  assert (IH' : forall k v,
             k = "quoted_status" \/ k = "retweeted_status" ->
             lookup k d = Some v ->
             match snd (Tweet.deserializer v) with
             | Ok _ => complete v
             | Err (KeyError _) => ~ complete v
             | Err _ => False
             end)
    by (intros k v Hk Hv; exact (IH d k v eq_refl Hv (Sn k v Hk Hv))).
  assert (Htext : by_keys (text_source d) (text_keys d)).
  { apply text_source_by_keys; [exact Sx|].
    intros rs Hrs.
    pose proof (Sn _ rs (or_intror eq_refl) Hrs) as Hw.
    inversion Hw as [dr _ _ Sx' _ E']. exists dr. split; trivial. }
  clear IH Hshape.
  unfold Tweet.body in Hbody.
  destruct r as [t|e].
  - apply bindM_ok in Hbody. destruct Hbody as [[] [d1 [Hres Hcons]]].
    apply construct_ok in Hcons.
    destruct Hcons as [Hfields [dq [Hq Hr]]].
    assert (Hsame : forall k, String.eqb "full_text" k = false ->
                              lookup k d1 = lookup k d)
      by (intros k; exact (resolve_full_text_other _ _ _ k Hres)).
    destruct Hfields as [F1 [F2 [_ [F3 [F4 [F5 [F6 [[u [Fu Huser]]
      [F7 [F8 [F9 [_ [F10 [F11 [[en [Fe Hent]]
      [F12 [F13 [_ F14]]]]]]]]]]]]]]]]]].
    repeat match goal with
           | F : context [lookup ?k d1] |- _ =>
               rewrite (Hsame k eq_refl) in F
           end.
    apply complete_post.
    + destruct (resolve_full_text_ok _ _ Hres)
        as [[Hhas _] | [_ [v [Hv _]]]].
      * rewrite Hhas. reflexivity.
      * rewrite Hv in Htext. simpl in Htext. rewrite Htext.
        apply orb_true_r.
    + simpl. unfold has. use_lookups. reflexivity.
    + intros u' Hu'. rewrite Fu in Hu'. injection Hu' as <-.
      pose proof (user_by_keys u (Su u Fu)) as Hk.
      rewrite Huser in Hk. exact Hk.
    + intros en' Hen'. rewrite Fe in Hen'. injection Hen' as <-.
      pose proof (entities_by_keys en (Se en Fe)) as Hk.
      rewrite Hent in Hk. exact Hk.
    + intros k v Hk Hv.
      pose proof (IH' k v Hk Hv) as Hv'.
      destruct Hk as [-> | ->].
      * destruct (nested_ok _ _ _ _ Hq)
          as [[Hnone _] | [x [x' [tw [Hx [Hdes _]]]]]];
          rewrite (Hsame "quoted_status" eq_refl) in *; [congruence|].
        rewrite Hv in Hx. injection Hx as <-.
        rewrite Hdes in Hv'. exact Hv'.
      * assert (Hrs : lookup "retweeted_status" dq = Some v).
        { rewrite (nested_other _ _ "retweeted_status" _ _ _ Hq eq_refl).
          rewrite (Hsame "retweeted_status" eq_refl). exact Hv. }
        destruct (nested_ok _ _ _ _ Hr)
          as [[Hnone _] | [x [x' [tw [Hx [Hdes _]]]]]]; [congruence|].
        rewrite Hrs in Hx. injection Hx as <-.
        rewrite Hdes in Hv'. exact Hv'.
  - assert (Hgoal : (exists k, e = KeyError k) /\ ~ complete (VDict d));
      [|destruct Hgoal as [[k ->] Hno]; exact Hno].
    apply bindM_err in Hbody.
    destruct Hbody as [Hres | [[] [d1 [Hres Hcons]]]].
    + rewrite resolve_full_text_eq in Hres.
      destruct (has "full_text" d) eqn:Hhas; [discriminate|].
      destruct (text_source d) as [v|e0]; [discriminate|].
      injection Hres as _ <-. simpl in Htext.
      destruct e0 as [k| |]; try contradiction.
      split; [exists k; reflexivity|].
      intros Hc. inversion Hc as [d0 C1 _ _ _ _ E]. subst d0.
      rewrite Hhas, Htext in C1. discriminate.
    + assert (Hsame : forall k, String.eqb "full_text" k = false ->
                                lookup k d1 = lookup k d)
        by (intros k; exact (resolve_full_text_other _ _ _ k Hres)).
      assert (Hft : lookup "full_text" d1 <> None).
      { destruct (resolve_full_text_ok _ _ Hres)
          as [[Hhas ->] | [_ [v [_ ->]]]].
        - apply has_true in Hhas. destruct Hhas as [v Hv]. congruence.
        - rewrite lookup_set_same. discriminate. }
      destruct (construct_err _ _ _ _ Hcons)
        as [[k [Hin [Hk ->]]]
           | [[u [Hu Huser]]
           | [[en [Hen Hent]]
           | [[v' Hcall] | [dq [rq [v' [Hq Hcall]]]]]]]].
      * split; [exists k; reflexivity|].
        destruct Hin as [<- | Hin]; [contradiction|].
        rewrite (Hsame k (tweet_required_not_text k Hin)) in Hk.
        intros Hc. inversion Hc as [d0 _ C2 _ _ _ E]. subst d0.
        rewrite forallb_forall in C2. specialize (C2 k Hin).
        apply has_true in C2. destruct C2 as [v Hv]. congruence.
      * rewrite (Hsame "user" eq_refl) in Hu.
        pose proof (user_by_keys u (Su u Hu)) as Hk.
        rewrite Huser in Hk. simpl in Hk.
        destruct e as [k| |]; try contradiction.
        split; [exists k; reflexivity|].
        intros Hc. inversion Hc as [d0 _ _ C3 _ _ E]. subst d0.
        rewrite (C3 u Hu) in Hk. discriminate.
      * rewrite (Hsame "entities" eq_refl) in Hen.
        pose proof (entities_by_keys en (Se en Hen)) as Hk.
        rewrite Hent in Hk. simpl in Hk.
        destruct e as [k| |]; try contradiction.
        split; [exists k; reflexivity|].
        intros Hc. inversion Hc as [d0 _ _ _ C4 _ E]. subst d0.
        rewrite (C4 en Hen) in Hk. discriminate.
      * apply recursive_call_some in Hcall.
        destruct Hcall as [v [Hv Hdes]].
        rewrite (Hsame "quoted_status" eq_refl) in Hv.
        pose proof (IH' _ v (or_introl eq_refl) Hv) as Hv'.
        rewrite Hdes in Hv'. simpl in Hv'.
        destruct e as [k| |]; try contradiction.
        split; [exists k; reflexivity|].
        intros Hc. inversion Hc as [d0 _ _ _ _ C5 E]. subst d0.
        exact (Hv' (C5 _ v (or_introl eq_refl) Hv)).
      * apply recursive_call_some in Hcall.
        destruct Hcall as [v [Hv Hdes]].
        rewrite (nested_other _ _ "retweeted_status" _ _ _ Hq eq_refl)
          in Hv.
        rewrite (Hsame "retweeted_status" eq_refl) in Hv.
        pose proof (IH' _ v (or_intror eq_refl) Hv) as Hv'.
        rewrite Hdes in Hv'. simpl in Hv'.
        destruct e as [k| |]; try contradiction.
        split; [exists k; reflexivity|].
        intros Hc. inversion Hc as [d0 _ _ _ _ C5 E]. subst d0.
        exact (Hv' (C5 _ v (or_intror eq_refl) Hv)).
Qed.

(** C5, as the code has it.  On a payload of the platform's shape a
    deserializer raises [KeyError] when a key it needs is missing, and
    returns its entity when none is: the post deserializer on a
    well-shaped post, the author's on a dict, the entities' on a dict of
    arrays of records, and those of the four records on a dict whose
    ['indices'] can be enumerated.  The keys read with [get] default to
    [None], and a nested post is deserialized when its key is there and
    is [None] when it is not. *)
Theorem missing_key_raises (data : value) :
  (well_shaped data ->
   (complete data ->
    exists data' t, Tweet.deserializer data = (data', Ok t))
   /\ (~ complete data ->
       exists data' k, Tweet.deserializer data = (data', Err (KeyError k))))
  /\ (is_dict data = true ->
      by_keys (TweetUser.deserializer data) (has_keys user_required data))
  /\ (shaped_entities data = true ->
      by_keys (Entities.deserializer data) (complete_entities data))
  /\ (shaped_item data = true ->
      by_keys (Hashtag.deserializer data) (has_keys hashtag_required data)
      /\ by_keys (Url.deserializer data) (has_keys url_required data)
      /\ by_keys (UserMention.deserializer data)
           (has_keys user_mention_required data)
      /\ by_keys (Symbol.deserializer data) (has_keys symbol_required data))
  /\ (forall x,
        TweetUser.deserializer data = Ok x ->
        TweetUser.profile_banner_url x
          = match at_key "profile_banner_url" data with
            | Some v => v
            | None => VNone
            end)
  /\ (forall d data' t,
        data = VDict d ->
        Tweet.deserializer data = (data', Ok t) ->
        Tweet.quoted_status_id t = get_default "quoted_status_id" VNone d
        /\ Tweet.possibly_sensitive t
           = get_default "possibly_sensitive" VNone d
        /\ (lookup "quoted_status" d = None -> Tweet.quoted_status t = None)
        /\ (forall v, lookup "quoted_status" d = Some v ->
            exists v' quoted,
              Tweet.deserializer v = (v', Ok quoted)
              /\ Tweet.quoted_status t = Some quoted)
        /\ (lookup "retweeted_status" d = None ->
            Tweet.retweeted_status t = None)
        /\ (forall v, lookup "retweeted_status" d = Some v ->
            exists v' reshared,
              Tweet.deserializer v = (v', Ok reshared)
              /\ Tweet.retweeted_status t = Some reshared)).
Proof.
  split.
  { intros Hshape. pose proof (deserializer_by_keys data Hshape) as H.
    destruct (Tweet.deserializer data) as [data' [t|e]]; simpl in H.
    - split; [intros _; exists data', t; reflexivity|].
      intros Hno. contradiction.
    - destruct e as [k| |]; try contradiction.
      split; [intros Hc; contradiction|].
      intros _. exists data', k. reflexivity. }
  split; [exact (user_by_keys data)|].
  split; [exact (entities_by_keys data)|].
  split.
  { intros Hshape. split; [exact (hashtag_by_keys data Hshape)|].
    split; [exact (url_by_keys data Hshape)|].
    split; [exact (user_mention_by_keys data Hshape)|].
    exact (symbol_by_keys data Hshape). }
  split.
  { intros x Hx. destruct (user_ok _ _ Hx) as [ud [-> [_ Hbanner]]].
    exact Hbanner. }
  intros d data' t -> H.
  apply deserializer_ok in H.
  destruct H as [d0 [d1 [dq [d' [E [_ [Hres [Hfields [Hq Hr]]]]]]]]].
  injection E as <-.
  assert (Hsame : forall k, String.eqb "full_text" k = false ->
                            lookup k d1 = lookup k d)
    by (intros k; exact (resolve_full_text_other _ _ _ k Hres)).
  destruct Hfields as [_ [_ [_ [_ [_ [_ [_ [_
    [_ [_ [_ [F1 [_ [_ [_ [_ [_ [F2 _]]]]]]]]]]]]]]]]]].
  unfold get_default in *.
  rewrite (Hsame "quoted_status_id" eq_refl) in F1.
  rewrite (Hsame "possibly_sensitive" eq_refl) in F2.
  split; [exact F1|]. split; [exact F2|].
  assert (Hqs : lookup "quoted_status" d1 = lookup "quoted_status" d)
    by (apply Hsame; reflexivity).
  assert (Hrs : lookup "retweeted_status" dq = lookup "retweeted_status" d).
  { rewrite (nested_other _ _ "retweeted_status" _ _ _ Hq eq_refl).
    apply Hsame. reflexivity. }
  assert (Hquoted :
    (lookup "quoted_status" d = None -> Tweet.quoted_status t = None)
    /\ (forall v, lookup "quoted_status" d = Some v ->
        exists v' quoted,
          Tweet.deserializer v = (v', Ok quoted)
          /\ Tweet.quoted_status t = Some quoted)).
  { destruct (nested_ok _ _ _ _ Hq)
      as [[Hnone [Ho _]] | [v [v' [tw [Hv [Hdes [Ho _]]]]]]];
      rewrite Hqs in *.
    - split; [intros _; exact Ho | congruence].
    - split; [congruence|].
      intros v0 Hv0. rewrite Hv in Hv0. injection Hv0 as <-.
      exists v', tw. split; assumption. }
  assert (Hreshared :
    (lookup "retweeted_status" d = None -> Tweet.retweeted_status t = None)
    /\ (forall v, lookup "retweeted_status" d = Some v ->
        exists v' reshared,
          Tweet.deserializer v = (v', Ok reshared)
          /\ Tweet.retweeted_status t = Some reshared)).
  { destruct (nested_ok _ _ _ _ Hr)
      as [[Hnone [Ho _]] | [v [v' [tw [Hv [Hdes [Ho _]]]]]]];
      rewrite Hrs in *.
    - split; [intros _; exact Ho | congruence].
    - split; [congruence|].
      intros v0 Hv0. rewrite Hv in Hv0. injection Hv0 as <-.
      exists v', tw. split; assumption. }
  destruct Hquoted as [Q1 Q2]. destruct Hreshared as [R1 R2].
  repeat split; assumption.
Qed.

(** Finding what a sample payload binds to a key. *)
Ltac found H := vm_compute in H; first [discriminate H | injection H as <-].

Lemma plain_post_well_shaped : well_shaped plain_post.
Proof.
  constructor.
  - intros u H. found H. reflexivity.
  - intros e H. found H. reflexivity.
  - intros x H. found H.
  - intros k v [-> | ->] H; found H.
Qed.

Lemma langless_post_well_shaped : well_shaped langless_post.
Proof.
  constructor.
  - intros u H. found H. reflexivity.
  - intros e H. found H. reflexivity.
  - intros x H. found H.
  - intros k v [-> | ->] H; found H.
Qed.

Lemma complete_keys (d : dict) :
  complete (VDict d) -> forallb (fun k => has k d) tweet_required = true.
Proof. intros Hc. inversion Hc. assumption. Qed.

Lemma missing_key_raises_witness :
  (exists data' t, Tweet.deserializer plain_post = (data', Ok t))
  /\ (exists data' k,
        Tweet.deserializer langless_post = (data', Err (KeyError k))).
Proof.
  split.
  - apply (proj1 (missing_key_raises plain_post) plain_post_well_shaped).
    constructor.
    + reflexivity.
    + reflexivity.
    + intros u H. found H. reflexivity.
    + intros e H. found H. reflexivity.
    + intros k v [-> | ->] H; found H.
  - apply (proj1 (missing_key_raises langless_post)
             langless_post_well_shaped).
    intros Hc. apply complete_keys in Hc.
    vm_compute in Hc. discriminate.
Defined.

(** The claim C5 as it is written fails on a payload that is not of the
    platform's shape: this one has no ['lang'], a key the deserializer
    needs, and the call raises [TypeError], not [KeyError], on the
    [null] it finds where the author's record should be. *)
Lemma type_error_before_missing_key :
  In "lang" tweet_required
  /\ getitem authorless_post "lang" = Err (KeyError "lang")
  /\ getitem authorless_post "user" = Ok VNone
  /\ snd (Tweet.deserializer authorless_post) = Err TypeError.
Proof.
  split; [simpl; tauto|]. repeat split; reflexivity.
Qed.

(** * Further properties *)

(** ** [collect_tweets]: how much it returns, and what *)

Lemma length_pages (fs : list fetch) :
  Z.of_nat (length (concat (map page fs))) = total fs.
Proof.
  induction fs as [|f fs IH]; simpl; [reflexivity|].
  rewrite length_app, Nat2Z.inj_add, IH. reflexivity.
Qed.

Lemma total_all_pages (b : bool) (fs : list fetch) :
  forall cnt oldest_id,
    chain b cnt oldest_id fs ->
    b = true ->
    Forall (fun f => page f <> []) fs ->
    total fs = cnt.
Proof.
  induction fs as [|f fs IH]; intros cnt oldest_id Hchain Hb Hall.
  - simpl in *. symmetry. exact (Hchain Hb).
  - destruct Hchain as [_ [_ [_ Hrest]]].
    inversion Hall as [|? ? Hf Hfs]; subst.
    simpl. destruct (page f) as [|first others] eqn:Hpage;
      [contradiction|].
    rewrite (IH _ _ Hrest eq_refl Hfs). lia.
Qed.

(** With a fetch method that respects [count], the loop returns at most
    [count] items. *)
Lemma collect_tweets_bounded (World : Type)
    (method : World -> Z -> option Z -> World * list Status.t)
    (fuel : nat) (w : World) (count : Z) :
  0 <= count ->
  respects_count method ->
  (Z.to_nat count < fuel)%nat ->
  exists result,
    snd (collect_tweets World method fuel w count) = Some result
    /\ Z.of_nat (length result) <= count
    /\ (Forall (fun f => page f <> []) (calls method fuel w count) ->
        Z.of_nat (length result) = count).
Proof.
  intros Hcount Hresp Hfuel.
  destruct (calls_chain World method fuel w count) as [Hchain [Hres Hfrom]].
  pose proof (collect_loop_returns World method Hresp fuel w count None []
                Hcount Hfuel) as Hret.
  fold (collect_tweets World method fuel w count) in Hret.
  rewrite Hret in Hchain.
  destruct (snd (collect_tweets World method fuel w count)) as [result|];
    [|discriminate].
  exists result. split; [reflexivity|].
  rewrite (Hres result eq_refl), length_pages.
  assert (Hbound :
    Forall (fun f => 0 < asked f ->
                     Z.of_nat (length (page f)) <= asked f)
      (calls method fuel w count)).
  { eapply Forall_impl; [|exact Hfrom].
    intros f [w0 Hpage] Hpos. rewrite <- Hpage. apply Hresp. exact Hpos. }
  destruct (chain_within_count _ _ _ _ Hcount Hbound Hchain) as [Hle _].
  split; [exact Hle|].
  intros Hall. exact (total_all_pages _ _ _ _ Hchain eq_refl Hall).
Qed.



Lemma descending_app (p q : list Status.t) :
  descending p ->
  descending q ->
  (forall a b, In a p -> In b q -> Status.id b < Status.id a) ->
  descending (p ++ q).
Proof.
  induction p as [|s p IH]; simpl; intros Hp Hq Hpq; [exact Hq|].
  destruct Hp as [Hs Hp]. split.
  - apply Forall_app. split; [exact Hs|].
    apply Forall_forall. intros b Hb. apply Hpq; [left; reflexivity | exact Hb].
  - apply IH; [exact Hp | exact Hq|].
    intros a b Ha Hb. apply Hpq; [right; exact Ha | exact Hb].
Qed.

Lemma last_cons {A} (l : list A) :
  forall a d, last (a :: l) d = last l a.
Proof.
  induction l as [|b l IH]; intros a d; [reflexivity|].
  change (last (a :: b :: l) d) with (last (b :: l) d).
  rewrite (IH b d), (IH b a). reflexivity.
Qed.

(** The last item of a descending page has its lowest id. *)
Lemma descending_last (others : list Status.t) :
  forall first s,
    descending (first :: others) ->
    In s (first :: others) ->
    Status.id (last others first) <= Status.id s.
Proof.
  induction others as [|second others IH]; intros first s Hd Hin.
  - destruct Hin as [<- | []]. simpl. lia.
  - destruct Hd as [Hfirst Hd].
    rewrite last_cons.
    destruct Hin as [<- | Hin].
    + inversion Hfirst as [|? ? Hsecond Hothers]; subst.
      pose proof (IH second second Hd (or_introl eq_refl)). lia.
    + exact (IH second s Hd Hin).
Qed.

Lemma descending_NoDup (p : list Status.t) :
  descending p -> NoDup (map Status.id p).
Proof.
  induction p as [|s p IH]; simpl; intros Hd; [constructor|].
  destruct Hd as [Hs Hd]. constructor; [|exact (IH Hd)].
  intros Hin. apply in_map_iff in Hin. destruct Hin as [s' [Heq Hin]].
  rewrite Forall_forall in Hs. specialize (Hs s' Hin). lia.
Qed.

(** The pages of a run, one after the other, are descending when each
    page is and holds no id above its cursor. *)
Lemma chain_descending (b : bool) (fs : list fetch) :
  forall cnt oldest_id,
    chain b cnt oldest_id fs ->
    Forall (fun f =>
              descending (page f)
              /\ forall bound, cursor f = Some bound ->
                               Forall (fun s => Status.id s <= bound)
                                 (page f)) fs ->
    descending (concat (map page fs))
    /\ forall oldest,
         oldest_id = Some oldest ->
         Forall (fun s => Status.id s < oldest) (concat (map page fs)).
Proof.
  induction fs as [|f fs IH]; intros cnt oldest_id Hchain Hall.
  - simpl. split; [exact I | intros; constructor].
  - destruct Hchain as [_ [_ [Hcursor Hrest]]].
    inversion Hall as [|? ? [Hdesc Hbound] Hfs]; subst.
    simpl concat.
    assert (Hhere : forall oldest, oldest_id = Some oldest ->
                    Forall (fun s => Status.id s < oldest) (page f)).
    { intros oldest ->. simpl in Hcursor.
      eapply Forall_impl; [|exact (Hbound _ Hcursor)].
      simpl. intros s Hs. lia. }
    destruct (page f) as [|first others] eqn:Hpage.
    + destruct Hrest as [-> _]. simpl.
      split; [exact I | intros; constructor].
    + destruct (IH _ _ Hrest Hfs) as [Hd Hbelow].
      specialize (Hbelow _ eq_refl).
      split.
      * apply descending_app; [exact Hdesc | exact Hd|].
        intros a c Ha Hc.
        rewrite Forall_forall in Hbelow. specialize (Hbelow c Hc).
        pose proof (descending_last others first a Hdesc Ha). lia.
      * intros oldest Ho. apply Forall_app. split; [exact (Hhere _ Ho)|].
        eapply Forall_impl; [|exact Hbelow].
        simpl. intros s Hs.
        pose proof (Hhere _ Ho) as Hfirst.
        rewrite Forall_forall in Hfirst.
        assert (Hin : In (last others first) (first :: others)).
        { clear. revert first.
          induction others as [|second others IH]; intros first;
            [left; reflexivity|].
          right. rewrite last_cons. exact (IH second). }
        specialize (Hfirst _ Hin). lia.
Qed.

(** X2. With a fetch method that honours [max_id], what
    [collect_tweets] returns is in descending order of id: the pages
    follow each other without overlap, and no post is returned twice. *)
Theorem collect_tweets_no_duplicate (World : Type)
    (method : World -> Z -> option Z -> World * list Status.t)
    (fuel : nat) (w : World) (count : Z) (result : list Status.t) :
  honours_max_id method ->
  snd (collect_tweets World method fuel w count) = Some result ->
  descending result /\ NoDup (map Status.id result).
Proof.
  intros Hhon Hres.
  destruct (calls_chain World method fuel w count) as [Hchain [Hpages Hfrom]].
  rewrite (Hpages result Hres).
  assert (Hall :
    Forall (fun f =>
              descending (page f)
              /\ forall bound, cursor f = Some bound ->
                               Forall (fun s => Status.id s <= bound)
                                 (page f))
      (calls method fuel w count)).
  { eapply Forall_impl; [|exact Hfrom].
    intros f [w0 Hpage]. rewrite <- Hpage. exact (Hhon w0 _ _). }
  destruct (chain_descending _ _ _ _ Hchain Hall) as [Hd _].
  split; [exact Hd | exact (descending_NoDup _ Hd)].
Qed.

Lemma items_descending (n : nat) :
  forall top,
    descending (items n top)
    /\ Forall (fun s => Status.id s <= top) (items n top).
Proof.
  induction n as [|n IH]; intros top; simpl; [split; [exact I | constructor]|].
  destruct (IH (top - 1)) as [Hd Hle].
  split.
  - split; [|exact Hd].
    eapply Forall_impl; [|exact Hle]. simpl. intros s Hs. lia.
  - constructor; [simpl; lia|].
    eapply Forall_impl; [|exact Hle]. simpl. intros s Hs. lia.
Qed.

Lemma full_timeline_honours_max_id : honours_max_id full_timeline.
Proof.
  intros w count max_id. unfold full_timeline. simpl.
  split; [apply items_descending|].
  intros bound ->.
  eapply Forall_impl; [|apply items_descending].
  simpl. intros s Hs. lia.
Qed.

Lemma collect_tweets_no_duplicate_witness :
  exists result,
    snd (collect_tweets _ full_timeline 5 1000 450) = Some result
    /\ length result = 450%nat
    /\ NoDup (map Status.id result).
Proof.
  eexists. split; [vm_compute; reflexivity|].
  split; [reflexivity|].
  apply (collect_tweets_no_duplicate _ full_timeline 5 1000 450);
    [exact full_timeline_honours_max_id | vm_compute; reflexivity].
Defined.

(** ** [parse_tweets] and the methods it decorates *)

Lemma deserialize_all_ok (statuses : list Status.t) :
  forall tweets,
    snd (deserialize_all statuses) = Ok tweets <->
    Forall2 (fun twt tweet =>
               snd (Tweet.deserializer (Status._json twt)) = Ok tweet)
      statuses tweets.
Proof.
  induction statuses as [|twt rest IH]; intros tweets; simpl.
  - split.
    + intros H. injection H as <-. constructor.
    + intros H. inversion H. reflexivity.
  - destruct (Tweet.deserializer (Status._json twt)) as [json' [tweet|e]]
      eqn:Hhead; simpl.
    + destruct (deserialize_all rest) as [rest' [tweets'|e]]; simpl in *.
      * split.
        -- intros H. injection H as <-.
           constructor; [rewrite Hhead; reflexivity | apply IH; reflexivity].
        -- intros H. inversion H as [|? ? ? ? Hh Htail]; subst.
           rewrite Hhead in Hh. injection Hh as <-. apply IH in Htail.
           injection Htail as <-. reflexivity.
      * split; [discriminate|].
        intros H. inversion H as [|? ? ? ? Hh Htail]; subst.
        apply IH in Htail. discriminate.
    + split; [discriminate|].
      intros H. inversion H as [|? ? ? ? Hh Htail]; subst.
      rewrite Hhead in Hh. discriminate.
Qed.

Lemma deserialize_all_err (statuses : list Status.t) :
  forall e,
    snd (deserialize_all statuses) = Err e <->
    exists before twt after,
      statuses = (before ++ twt :: after)%list
      /\ Forall (fun s =>
                   exists tweet,
                     snd (Tweet.deserializer (Status._json s)) = Ok tweet)
           before
      /\ snd (Tweet.deserializer (Status._json twt)) = Err e.
Proof.
  induction statuses as [|twt rest IH]; intros e; simpl.
  - split; [discriminate|].
    intros [before [twt [after [H _]]]]. destruct before; discriminate.
  - destruct (Tweet.deserializer (Status._json twt)) as [json' [tweet|e']]
      eqn:Hhead; simpl.
    + destruct (deserialize_all rest) as [rest' [tweets'|e']] eqn:Hrest;
        simpl in *.
      * split; [discriminate|].
        intros [before [s [after [Hsplit [Hbefore Hs]]]]].
        destruct before as [|b before]; simpl in Hsplit;
          injection Hsplit as <- ->.
        -- rewrite Hhead in Hs. discriminate.
        -- inversion Hbefore; subst.
           assert (Hno : Ok tweets' = Err e)
             by (apply IH; exists before, s, after; repeat split; assumption).
           discriminate.
      * split.
        -- intros H. injection H as <-.
           destruct (proj1 (IH e') eq_refl)
             as [before [s [after [-> [Hbefore Hs]]]]].
           exists (twt :: before), s, after.
           split; [reflexivity|]. split; [|exact Hs].
           constructor; [|exact Hbefore].
           exists tweet. rewrite Hhead. reflexivity.
        -- intros [before [s [after [Hsplit [Hbefore Hs]]]]].
           destruct before as [|b before]; simpl in Hsplit;
             injection Hsplit as <- ->.
           ++ rewrite Hhead in Hs. discriminate.
           ++ inversion Hbefore; subst.
              apply IH. exists before, s, after. repeat split; assumption.
    + split.
      * intros H. injection H as <-.
        exists [], twt, rest. split; [reflexivity|].
        split; [constructor|]. rewrite Hhead. reflexivity.
      * intros [before [s [after [Hsplit [Hbefore Hs]]]]].
        destruct before as [|b before]; simpl in Hsplit;
          injection Hsplit as <- ->.
        -- rewrite Hhead in Hs. simpl in Hs. injection Hs as ->.
           reflexivity.
        -- inversion Hbefore as [|? ? [tweet Hb] _]; subst.
           rewrite Hhead in Hb. discriminate.
Qed.

Lemma deserialize_all_ids (statuses : list Status.t) :
  map Status.id (fst (deserialize_all statuses)) = map Status.id statuses.
Proof.
  induction statuses as [|twt rest IH]; simpl; [reflexivity|].
  destruct (Tweet.deserializer (Status._json twt)) as [json' [tweet|e]];
    simpl; [|reflexivity].
  destruct (deserialize_all rest) as [rest' rs]; simpl in *.
  rewrite IH. reflexivity.
Qed.

(** X3. The comprehension of [parse_tweets] returns the posts of the
    statuses one for one and in their order; when a status cannot be
    deserialized, the exception of the first such status is raised, and
    no list is returned.  The statuses keep their ids and their order. *)
Theorem parse_tweets_in_order (statuses : list Status.t) :
  (forall tweets,
     snd (deserialize_all statuses) = Ok tweets <->
     Forall2 (fun twt tweet =>
                snd (Tweet.deserializer (Status._json twt)) = Ok tweet)
       statuses tweets)
  /\ (forall e,
        snd (deserialize_all statuses) = Err e <->
        exists before twt after,
          statuses = (before ++ twt :: after)%list
          /\ Forall (fun s =>
                       exists tweet,
                         snd (Tweet.deserializer (Status._json s))
                           = Ok tweet) before
          /\ snd (Tweet.deserializer (Status._json twt)) = Err e)
  /\ map Status.id (fst (deserialize_all statuses)) = map Status.id statuses.
Proof.
  split; [exact (deserialize_all_ok statuses)|].
  split; [exact (deserialize_all_err statuses)|].
  exact (deserialize_all_ids statuses).
Qed.

Lemma deserialize_all_length (statuses : list Status.t)
    (tweets : list Tweet.t) :
  snd (deserialize_all statuses) = Ok tweets ->
  length tweets = length statuses.
Proof.
  intros H. apply deserialize_all_ok in H.
  symmetry. exact (Forall2_length H).
Qed.



(** What the loop of [get_historical] returns: the list it was entered
    with, then what [collect_tweets] returned for each user, in the order
    of the users. *)
Lemma get_historical_loop_segments (World : Type)
    (user_timeline :
       string -> World -> Z -> option Z -> World * list Status.t)
    (fuel : nat) (count : Z) :
  0 <= count ->
  (forall user_id, respects_count (user_timeline user_id)) ->
  (Z.to_nat count < fuel)%nat ->
  forall users w result,
  exists segments,
    snd (get_historical_loop World user_timeline fuel count users w result)
      = Some (result ++ concat segments)%list
    /\ Forall2
         (fun user_id segment =>
            Z.of_nat (length segment) <= count
            /\ exists w0,
                 snd (collect_tweets World (user_timeline user_id)
                        fuel w0 count) = Some segment)
         users segments.
Proof.
  intros Hcount Hresp Hfuel.
  induction users as [|user_id rest IH]; intros w result; simpl.
  - exists []. simpl. rewrite app_nil_r. split; [reflexivity | constructor].
  - destruct (collect_tweets_bounded World (user_timeline user_id) fuel w
                count Hcount (Hresp user_id) Hfuel)
      as [collected [Hres [Hle _]]].
    destruct (collect_tweets World (user_timeline user_id) fuel w count)
      as [w' r] eqn:Hrun.
    simpl in Hres. subst r.
    destruct (IH w' (result ++ collected)%list) as [segments [Hrest Hall]].
    exists (collected :: segments). split.
    + rewrite Hrest. simpl. rewrite <- app_assoc. reflexivity.
    + constructor; [|exact Hall].
      split; [exact Hle|]. exists w. rewrite Hrun. reflexivity.
Qed.

Lemma length_segments (count : Z) (segments : list (list Status.t)) :
  Forall (fun segment => Z.of_nat (length segment) <= count) segments ->
  Z.of_nat (length (concat segments))
    <= count * Z.of_nat (length segments).
Proof.
  induction segments as [|segment segments IH]; simpl; intros H; [lia|].
  inversion H; subst.
  rewrite length_app. specialize (IH ltac:(assumption)). lia.
Qed.



(** ** [Entities.deserializer] *)

Lemma mapM_ok {A B} (f : A -> result B) (xs : list A) :
  forall ys,
    mapM f xs = Ok ys <-> Forall2 (fun x y => f x = Ok y) xs ys.
Proof.
  induction xs as [|x xs IH]; intros ys; simpl.
  - split.
    + intros H. injection H as <-. constructor.
    + intros H. inversion H. reflexivity.
  - destruct (f x) as [y|e] eqn:Hx.
    + destruct (mapM f xs) as [ys'|e].
      * split.
        -- intros H. injection H as <-.
           constructor; [exact Hx | apply IH; reflexivity].
        -- intros H. inversion H as [|? ? ? ? Hh Ht]; subst.
           rewrite Hx in Hh. injection Hh as <-.
           apply IH in Ht. injection Ht as <-. reflexivity.
      * split; [discriminate|].
        intros H. inversion H as [|? ? ? ? Hh Ht]; subst.
        apply IH in Ht. discriminate.
    + split; [discriminate|].
      intros H. inversion H as [|? ? ? ? Hh Ht]; subst.
      rewrite Hx in Hh. discriminate.
Qed.

Lemma bind_returns {A B} (r : result A) (f : A -> result B) (b : B) :
  bind r f = Ok b <-> exists a, r = Ok a /\ f a = Ok b.
Proof.
  destruct r as [a|e]; simpl; split.
  - intros H. exists a. split; [reflexivity | exact H].
  - intros [a' [Ha H]]. injection Ha as ->. exact H.
  - discriminate.
  - intros [a [Ha _]]. discriminate.
Qed.

(** One array of [Entities.deserializer]. *)
Lemma records_ok {A} (f : value -> result A) (k : string) (data : value)
    (ys : list A) :
  (l <- getitem data k;; xs <- iter l;; mapM f xs)%result = Ok ys <->
  exists xs, records k data = Ok xs /\ Forall2 (fun x y => f x = Ok y) xs ys.
Proof.
  unfold records. split.
  - intros H. apply bind_returns in H. destruct H as [l [Hl H]].
    apply bind_returns in H. destruct H as [xs [Hxs H]].
    exists xs. split; [|apply mapM_ok; exact H].
    rewrite Hl. simpl. exact Hxs.
  - intros [xs [Hxs H]].
    apply bind_returns in Hxs. destruct Hxs as [l [Hl Hxs]].
    rewrite Hl. simpl. rewrite Hxs. simpl. apply mapM_ok. exact H.
Qed.

(** X6. [Entities.deserializer] returns exactly when the payload has
    the four arrays and each of their records can be deserialized; the
    collection it returns has one entity per record, in the order of the
    records. *)
Theorem entities_in_order (data : value) (x : Entities.t) :
  Entities.deserializer data = Ok x <->
  exists hashtags urls user_mentions symbols,
    records "hashtags" data = Ok hashtags
    /\ records "urls" data = Ok urls
    /\ records "user_mentions" data = Ok user_mentions
    /\ records "symbols" data = Ok symbols
    /\ Forall2 (fun r h => Hashtag.deserializer r = Ok h)
         hashtags (Entities.hashtags x)
    /\ Forall2 (fun r u => Url.deserializer r = Ok u)
         urls (Entities.urls x)
    /\ Forall2 (fun r m => UserMention.deserializer r = Ok m)
         user_mentions (Entities.user_mentions x)
    /\ Forall2 (fun r s => Symbol.deserializer r = Ok s)
         symbols (Entities.symbols x).
Proof.
  unfold Entities.deserializer. split.
  - intros H.
    apply bind_returns in H. destruct H as [hs [Hh H]].
    apply bind_returns in H. destruct H as [us [Hu H]].
    apply bind_returns in H. destruct H as [ms [Hm H]].
    apply bind_returns in H. destruct H as [ss [Hs H]].
    injection H as <-. simpl.
    apply records_ok in Hh. destruct Hh as [hashtags [Hh1 Hh2]].
    apply records_ok in Hu. destruct Hu as [urls [Hu1 Hu2]].
    apply records_ok in Hm. destruct Hm as [mentions [Hm1 Hm2]].
    apply records_ok in Hs. destruct Hs as [symbols [Hs1 Hs2]].
    exists hashtags, urls, mentions, symbols. repeat split; assumption.
  - intros [hashtags [urls [mentions [symbols
      [Hh1 [Hu1 [Hm1 [Hs1 [Hh2 [Hu2 [Hm2 Hs2]]]]]]]]]]].
    destruct x as [hs us ms ss]. simpl in *.
    apply bind_returns. exists hs.
    split; [apply records_ok; exists hashtags; split; assumption|].
    apply bind_returns. exists us.
    split; [apply records_ok; exists urls; split; assumption|].
    apply bind_returns. exists ms.
    split; [apply records_ok; exists mentions; split; assumption|].
    apply bind_returns. exists ss.
    split; [apply records_ok; exists symbols; split; assumption|].
    reflexivity.
Qed.

(** ** The text of [pretty_print] and the row of [tweets_to_df] *)

(** X7. For a post whose reshared post, if any, is not itself a
    reshare, [pretty_print] and [tweets_to_df] tell the same story: the
    text names the sender, the reshared author, the quoted author and
    the quoted text that stand in the row, and the row has [is_retweet]
    exactly in the two reshare cases and no quote columns in the two
    cases without quote. *)
Theorem text_and_row_agree (str_of : value -> string) (tweet : Tweet.t) :
  (forall rt, Tweet.retweeted_status tweet = Some rt ->
              Tweet.retweeted_status rt = None) ->
  let f := fmt str_of in
  let row := row_of tweet in
  match branch_of tweet with
  | PlainReshare =>
      exists rt,
        Tweet.retweeted_status tweet = Some rt
        /\ pretty_print str_of tweet
           = text_reshare (f (sender_column row)) (f (Row.retweet_sender row))
               (f (Tweet.full_text rt))
        /\ Row.is_retweet row = VBool true
        /\ Row.is_quote row = VNone
        /\ Row.quoted_tweet_sender row = VNone
        /\ Row.quoted_tweet_text row = VNone
  | ReshareOfQuote =>
      exists rt,
        Tweet.retweeted_status tweet = Some rt
        /\ pretty_print str_of tweet
           = text_reshare_of_quote (f (sender_column row))
               (f (Row.retweet_sender row))
               (f (Row.quoted_tweet_sender row)) (f (Tweet.full_text rt))
               (f (Row.quoted_tweet_text row))
        /\ Row.is_retweet row = VBool true
  | DirectQuote =>
      pretty_print str_of tweet
        = text_quote (f (sender_column row)) (f (Row.quoted_tweet_sender row))
            (f (Row.text row)) (f (Row.quoted_tweet_text row))
      /\ Row.is_retweet row = VBool false
  | PlainPost =>
      pretty_print str_of tweet
        = text_plain (f (sender_column row)) (f (Row.text row))
      /\ Row.is_retweet row = VBool false
      /\ Row.is_quote row = VNone
      /\ Row.quoted_tweet_sender row = VNone
      /\ Row.quoted_tweet_text row = VNone
  end.
Proof.
  intros Hflat f row. subst f row.
  unfold branch_of, pretty_print, row_of.
  destruct tweet as [? ? ? ? ? ? ? ? ? ? ? ? quoted ? ? ? ? ? ? ? reshared].
  simpl in *.
  destruct reshared as [rt|].
  - specialize (Hflat rt eq_refl).
    destruct rt as [? ? ? ? ? ? ? ? ? ? ? ? rquoted ? ? ? ? ? ? ? rreshared].
    simpl in *. subst rreshared.
    destruct rquoted as [q|]; simpl.
    + eexists. split; [reflexivity|]. split; reflexivity.
    + eexists. split; [reflexivity|]. repeat split; reflexivity.
  - destruct quoted as [q|]; simpl; repeat split; reflexivity.
Qed.

Lemma text_and_row_agree_witness :
  exists rt,
    Tweet.retweeted_status bob_reshare = Some rt
    /\ pretty_print (fun _ => "None") bob_reshare
       = text_reshare_of_quote "bob" "carol" "dave" "look" "orig"
    /\ Row.is_retweet (row_of bob_reshare) = VBool true.
Proof.
  destruct (text_and_row_agree (fun _ => "None") bob_reshare)
    as [rt [Hrt [Htext Hretweet]]].
  - intros rt Hrt. injection Hrt as <-. reflexivity.
  - exists rt. split; [exact Hrt|]. split; [|exact Hretweet].
    rewrite Htext. injection Hrt as <-. reflexivity.
Defined.

(** ** What the post deserializer depends on *)

(** Two runs of a computation from dicts that bind alike: the steps of
    [construct], one by one. *)
Lemma same_read (k : string) {B} (f : value -> M B) (a b : dict) :
  lookup k a = lookup k b ->
  (forall v, snd (f v a) = snd (f v b)) ->
  snd (bindM (read k) f a) = snd (bindM (read k) f b).
Proof.
  intros Hk Hf. unfold bindM, read, getitem. rewrite Hk.
  destruct (lookup k b); [apply Hf | reflexivity].
Qed.

Lemma same_read_default (k : string) (default : value) {B}
    (f : value -> M B) (a b : dict) :
  lookup k a = lookup k b ->
  (forall v, snd (f v a) = snd (f v b)) ->
  snd (bindM (read_default k default) f a)
    = snd (bindM (read_default k default) f b).
Proof.
  intros Hk Hf. unfold bindM, read_default, get_default. rewrite Hk.
  apply Hf.
Qed.

Lemma same_record {A B} (g : value -> result A) (k : string)
    (f : A -> M B) (a b : dict) :
  lookup k a = lookup k b ->
  (forall x, snd (f x a) = snd (f x b)) ->
  snd (bindM (u <- read k;; lift (g u))%M f a)
    = snd (bindM (u <- read k;; lift (g u))%M f b).
Proof.
  intros Hk Hf. unfold bindM, read, lift, getitem. rewrite Hk.
  destruct (lookup k b) as [u|]; [|reflexivity].
  destruct (g u); [apply Hf | reflexivity].
Qed.

Lemma same_nested (k : string) {B} (f : option Tweet.t -> M B)
    (a b : dict) :
  option_map snd (recursive_call k a) = option_map snd (recursive_call k b) ->
  (forall o a' b',
     (forall k', String.eqb k k' = false -> lookup k' a' = lookup k' a) ->
     (forall k', String.eqb k k' = false -> lookup k' b' = lookup k' b) ->
     snd (f o a') = snd (f o b')) ->
  snd (bindM (Tweet.nested recursive_call k) f a)
    = snd (bindM (Tweet.nested recursive_call k) f b).
Proof.
  intros Hcall Hf. unfold bindM, Tweet.nested.
  destruct (recursive_call k a) as [[va ra]|];
    destruct (recursive_call k b) as [[vb rb]|];
    simpl in Hcall; try discriminate.
  - injection Hcall as <-.
    destruct ra as [tw|e]; [|reflexivity].
    apply Hf; intros k' Hk'; apply lookup_set_other; exact Hk'.
  - apply Hf; reflexivity.
Qed.

Ltac key_here Hk := apply Hk; [simpl; tauto | reflexivity | reflexivity].

(** The outcome of [construct] depends on the dict through the values of
    the keys it reads and the outcomes of the two recursive calls. *)
Lemma construct_same_result (a b : dict) :
  (forall k, In k tweet_keys ->
             k <> "quoted_status" -> k <> "retweeted_status" ->
             lookup k a = lookup k b) ->
  (forall k, k = "quoted_status" \/ k = "retweeted_status" ->
             option_map snd (recursive_call k a)
               = option_map snd (recursive_call k b)) ->
  snd (Tweet.construct recursive_call a)
    = snd (Tweet.construct recursive_call b).
Proof.
  intros Hkeys Hcalls. unfold Tweet.construct.
  assert (Hk : forall k, In k tweet_keys ->
                         String.eqb "quoted_status" k = false ->
                         String.eqb "retweeted_status" k = false ->
                         lookup k a = lookup k b).
  { intros k Hin Hq Hr. apply Hkeys; [exact Hin| |];
      intros ->; discriminate. }
  do 7 (apply same_read; [key_here Hk|]; intros ?).
  apply same_record; [key_here Hk|]; intros ?.
  do 3 (apply same_read; [key_here Hk|]; intros ?).
  apply same_read_default; [key_here Hk|]; intros ?.
  apply same_nested; [apply Hcalls; left; reflexivity|].
  intros q a' b' Ha Hb.
  assert (Hk' : forall k, In k tweet_keys ->
                          String.eqb "quoted_status" k = false ->
                          String.eqb "retweeted_status" k = false ->
                          lookup k a' = lookup k b').
  { intros k Hin Hq Hr. rewrite (Ha k Hq), (Hb k Hq).
    exact (Hk k Hin Hq Hr). }
  do 2 (apply same_read; [key_here Hk'|]; intros ?).
  apply same_record; [key_here Hk'|]; intros ?.
  do 2 (apply same_read; [key_here Hk'|]; intros ?).
  apply same_read_default; [key_here Hk'|]; intros ?.
  apply same_read; [key_here Hk'|]; intros ?.
  apply same_nested.
  - unfold recursive_call.
    rewrite (Ha "retweeted_status" eq_refl), (Hb "retweeted_status" eq_refl).
    apply Hcalls. right. reflexivity.
  - intros rt a'' b'' _ _. reflexivity.
Qed.

Lemma text_source_same (a b : dict) :
  same_bindings a b -> text_source a = text_source b.
Proof.
  intros H.
  unfold text_source, reshare_text_source, getitem, has.
  rewrite (H "truncated") by (simpl; tauto).
  rewrite (H "extended_tweet") by (simpl; tauto).
  rewrite (H "retweeted_status") by (simpl; tauto).
  rewrite (H "text") by (simpl; tauto).
  reflexivity.
Qed.

Lemma same_bindings_set (k : string) (v : value) (a b : dict) :
  same_bindings a b -> same_bindings (set k v a) (set k v b).
Proof.
  intros H k' Hin.
  destruct (String.eqb k k') eqn:E.
  - apply String.eqb_eq in E. subst k'. rewrite !lookup_set_same.
    reflexivity.
  - rewrite !lookup_set_other by exact E. apply H. exact Hin.
Qed.

Lemma construct_same_bindings (a b : dict) :
  same_bindings a b ->
  snd (Tweet.construct recursive_call a)
    = snd (Tweet.construct recursive_call b).
Proof.
  intros H. apply construct_same_result.
  - intros k Hin _ _. apply H. exact Hin.
  - intros k Hk. unfold recursive_call. rewrite (H k); [reflexivity|].
    destruct Hk as [-> | ->]; simpl; tauto.
Qed.

(** X8.  What [Tweet.deserializer] returns for a dict, the post or the
    exception, depends only on the values the dict binds to the keys the
    function looks for: two payloads that bind these keys alike give the
    same outcome, whatever other keys they have and in whatever order
    their keys come. *)
Theorem deserializer_reads_its_keys (a b : dict)
    (Hsame : same_bindings a b) :
  snd (Tweet.deserializer (VDict a)) = snd (Tweet.deserializer (VDict b)).
Proof.
  rewrite !deserializer_eq.
  destruct (Tweet.body recursive_call a) as [a' ra] eqn:Ha.
  destruct (Tweet.body recursive_call b) as [b' rb] eqn:Hb.
  simpl.
  change ra with (snd (a', ra)). change rb with (snd (b', rb)).
  rewrite <- Ha, <- Hb. clear Ha Hb.
  unfold Tweet.body, bindM. rewrite !resolve_full_text_eq.
  unfold has. rewrite (Hsame "full_text") by (simpl; tauto).
  destruct (lookup "full_text" b).
  - apply construct_same_bindings. exact Hsame.
  - rewrite (text_source_same a b Hsame).
    destruct (text_source b) as [v|e]; [|reflexivity].
    apply construct_same_bindings. apply same_bindings_set. exact Hsame.
Qed.

(** The payload of a plain post, and the same payload with its keys in
    the opposite order and one more key. *)
Lemma deserializer_reads_its_keys_witness :
  let a := ("text", VStr "hello") :: ("truncated", VBool false)
           :: sample_fields "alice" in
  let b := ("annotations", VNone) :: rev a in
  same_bindings a b
  /\ snd (Tweet.deserializer (VDict a)) = snd (Tweet.deserializer (VDict b)).
Proof.
  intros a b.
  assert (H : same_bindings a b).
  { intros k Hin. simpl in Hin.
    repeat (destruct Hin as [<- | Hin]; [vm_compute; reflexivity|]).
    destruct Hin. }
  split; [exact H|].
  exact (deserializer_reads_its_keys a b H).
Defined.

(** ** A second call on the same payload *)

(** [construct] run from a dict whose two nested posts deserialize to
    themselves. *)
Lemma bindM_read (k : string) (v : value) {B} (f : value -> M B)
    (d : dict) :
  lookup k d = Some v -> bindM (read k) f d = f v d.
Proof.
  intros H. unfold bindM, read, getitem. rewrite H. reflexivity.
Qed.

Lemma bindM_record {A B} (g : value -> result A) (k : string) (u : value)
    (x : A) (f : A -> M B) (d : dict) :
  lookup k d = Some u -> g u = Ok x ->
  bindM (u <- read k;; lift (g u))%M f d = f x d.
Proof.
  intros H Hg. unfold bindM, read, lift, getitem. rewrite H, Hg.
  reflexivity.
Qed.

Lemma bindM_nested_settled (k : string) (o : option Tweet.t) {B}
    (f : option Tweet.t -> M B) (d : dict) :
  Tweet.nested recursive_call k d = (d, Ok o) ->
  bindM (Tweet.nested recursive_call k) f d = f o d.
Proof.
  intros H. unfold bindM. rewrite H. reflexivity.
Qed.

Lemma construct_settled (d : dict) (t : Tweet.t) :
  fields_from d t ->
  Tweet.nested recursive_call "quoted_status" d
    = (d, Ok (Tweet.quoted_status t)) ->
  Tweet.nested recursive_call "retweeted_status" d
    = (d, Ok (Tweet.retweeted_status t)) ->
  Tweet.construct recursive_call d = (d, Ok t).
Proof.
  intros Hfields Hq Hr.
  destruct Hfields as
    [H1 [H2 [H3 [H4 [H5 [H6 [H7 [[u [H8 Hu]] [H9 [H10 [H11 [H12 [H13
      [H14 [[e [H15 He]] [H16 [H17 [H18 H19]]]]]]]]]]]]]]]]]].
  unfold Tweet.construct.
  rewrite (bindM_read _ _ _ _ H1), (bindM_read _ _ _ _ H2),
    (bindM_read _ _ _ _ H3), (bindM_read _ _ _ _ H4),
    (bindM_read _ _ _ _ H5), (bindM_read _ _ _ _ H6),
    (bindM_read _ _ _ _ H7), (bindM_record _ _ _ _ _ _ H8 Hu),
    (bindM_read _ _ _ _ H9), (bindM_read _ _ _ _ H10),
    (bindM_read _ _ _ _ H11).
  unfold bindM at 1, read_default at 1.
  rewrite (bindM_nested_settled _ _ _ _ Hq).
  rewrite (bindM_read _ _ _ _ H13), (bindM_read _ _ _ _ H14),
    (bindM_record _ _ _ _ _ _ H15 He), (bindM_read _ _ _ _ H16),
    (bindM_read _ _ _ _ H17).
  unfold bindM at 1, read_default at 1.
  rewrite (bindM_read _ _ _ _ H19).
  rewrite (bindM_nested_settled _ _ _ _ Hr).
  unfold ret. rewrite <- H12, <- H18.
  destruct t; reflexivity.
Qed.

(** A nested post that was deserialized, in the payload the call left:
    deserializing it again changes nothing. *)
Lemma nested_settled (k k' : string) (d dq d' : dict) (o : option Tweet.t) :
  (forall x x' tx, lookup k d = Some x ->
                   Tweet.deserializer x = (x', Ok tx) ->
                   Tweet.deserializer x' = (x', Ok tx)) ->
  Tweet.nested recursive_call k d = (dq, Ok o) ->
  lookup k d' = lookup k dq ->
  Tweet.nested recursive_call k d' = (d', Ok o).
Proof.
  intros IH H Hsame. apply nested_ok in H.
  unfold Tweet.nested, recursive_call. rewrite Hsame.
  destruct H as [[Hk [-> ->]] | [v [v' [tw [Hk [Hv [-> ->]]]]]]].
  - rewrite Hk. reflexivity.
  - rewrite lookup_set_same. simpl.
    rewrite (IH v v' tw Hk Hv).
    rewrite set_lookup_same; [reflexivity|].
    rewrite Hsame. apply lookup_set_same.
Qed.

(** X9.  A payload that gave a post gives the same post again: called on
    the payload as a successful call left it, [Tweet.deserializer] returns
    the same post and changes nothing more. *)
Theorem deserializer_twice (data data' : value) (t : Tweet.t)
    (Hcall : Tweet.deserializer data = (data', Ok t)) :
  Tweet.deserializer data' = (data', Ok t).
Proof.
  revert data' t Hcall.
  induction data as [data IH] using value_dict_ind.
  intros data' t Hcall.
  apply deserializer_ok in Hcall.
  destruct Hcall as [d [d1 [dq [d' [-> [-> [Hres [Hfields [Hq Hr]]]]]]]]].
  assert (Hd1 : forall k, String.eqb "full_text" k = false ->
                          lookup k d1 = lookup k d)
    by (intros k; exact (resolve_full_text_other _ _ _ k Hres)).
  assert (Hdq : forall k, String.eqb "quoted_status" k = false ->
                          lookup k dq = lookup k d1)
    by (intros k; exact (nested_other _ _ k _ _ _ Hq)).
  assert (Hd' : forall k, String.eqb "retweeted_status" k = false ->
                          lookup k d' = lookup k dq)
    by (intros k; exact (nested_other _ _ k _ _ _ Hr)).
  assert (Hkeep : forall k, String.eqb "quoted_status" k = false ->
                            String.eqb "retweeted_status" k = false ->
                            lookup k d' = lookup k d1).
  { intros k Hkq Hkr. rewrite (Hd' k Hkr). exact (Hdq k Hkq). }
  assert (Hq' : Tweet.nested recursive_call "quoted_status" d'
                = (d', Ok (Tweet.quoted_status t))).
  { apply (nested_settled _ "quoted_status" d1 dq); [|exact Hq|].
    - intros x x' tx Hx. apply (IH d "quoted_status" x eq_refl).
      rewrite <- (Hd1 "quoted_status" eq_refl). exact Hx.
    - apply Hd'. reflexivity. }
  assert (Hr' : Tweet.nested recursive_call "retweeted_status" d'
                = (d', Ok (Tweet.retweeted_status t))).
  { apply (nested_settled _ "retweeted_status" dq d'); [|exact Hr|].
    - intros x x' tx Hx. apply (IH d "retweeted_status" x eq_refl).
      rewrite <- (Hd1 "retweeted_status" eq_refl).
      rewrite <- (Hdq "retweeted_status" eq_refl). exact Hx.
    - reflexivity. }
  assert (Hfields' : fields_from d' t).
  { unfold fields_from, get_default in *.
    rewrite !Hkeep by reflexivity. exact Hfields. }
  rewrite deserializer_eq. unfold Tweet.body, bindM.
  rewrite resolve_full_text_eq.
  assert (Hhas : has "full_text" d' = true).
  { unfold has. rewrite Hkeep by reflexivity.
    destruct Hfields as [_ [_ [-> _]]]. reflexivity. }
  rewrite Hhas.
  rewrite (construct_settled d' t Hfields' Hq' Hr'). reflexivity.
Qed.

Lemma deserializer_twice_witness :
  let data := reshare_post "bob" (quoting_post "carol" "look" plain_post) in
  exists data' t,
    Tweet.deserializer data = (data', Ok t)
    /\ Tweet.deserializer data' = (data', Ok t).
Proof.
  intros data.
  destruct (Tweet.deserializer data) as [data' [t|e]] eqn:H;
    [|vm_compute in H; discriminate H].
  exists data', t. split; [reflexivity|].
  exact (deserializer_twice data data' t H).
Defined.

(** ** The retries of [stream] *)

Lemma stream_loop_retries {World Exception}
    (is_protocol_error : Exception -> bool)
    (filter : list value -> World -> World * outcome Exception unit)
    (print : printed Exception -> World -> World)
    (sleep : Z -> World -> World) (ids : list value) (fuel : nat) :
  forall w,
    let run := stream_loop World Exception is_protocol_error filter print
                 sleep fuel ids w in
    retries is_protocol_error ids (snd (fst run)) (snd run)
    /\ (filters (snd (fst run)) <= fuel)%nat
    /\ (snd run = None -> filters (snd (fst run)) = fuel).
Proof.
  induction fuel as [|fuel IH]; intros w; simpl.
  - split; [constructor|]. split; [apply Nat.le_refl | reflexivity].
  - destruct (filter ids w) as [w1 [[]|e]].
    + specialize (IH w1). simpl in IH.
      destruct (stream_loop _ _ _ _ _ _ fuel ids w1) as [[w2 done] r].
      simpl in *. destruct IH as [Hrun [Hle Hnone]].
      split; [constructor; exact Hrun|].
      split; [unfold filters in *; simpl; lia|].
      intros Hr. unfold filters in *. simpl. rewrite (Hnone Hr).
      reflexivity.
    + destruct (is_protocol_error e) eqn:He.
      * specialize (IH (sleep 15 (print (Exc e) (print (Text "error") w1)))).
        simpl in IH.
        destruct (stream_loop _ _ _ _ _ _ fuel ids _) as [[w2 done] r].
        simpl in *. destruct IH as [Hrun [Hle Hnone]].
        split; [constructor; assumption|].
        split; [unfold filters in *; simpl; lia|].
        intros Hr. unfold filters in *. simpl. rewrite (Hnone Hr).
        reflexivity.
      * simpl. split; [constructor; exact He|].
        split; [unfold filters; simpl; lia | discriminate].
Qed.


